(** * Purchase-event reconciliation core of the iaptic React Native demo

    A shallow embedding of [src/iaptic-rn/classes/IapEventsProcessor.ts].

    The class is asynchronous JavaScript running on a single-threaded event
    loop.  A call of [processPurchase] runs synchronously up to its first
    [await]; it is then suspended and resumed later, once the awaited promise
    has settled.  Other calls can run in between.  The embedding follows
    that shape: the code between two suspension points is one atomic
    transition on an explicit [State], a suspended call is a [Task] that
    records where it waits, and the host (timers, the validation service,
    the store platform) decides how each awaited promise settles.
*)

From Stdlib Require Import ZArith Lia.
From stdpp Require Import base option list strings pretty gmap.

Local Open Scope Z_scope.

(* ===================================================================== *)
(** ** Data                                                               *)
(* ===================================================================== *)

(** [IAP.ProductPurchase | IAP.SubscriptionPurchase]: only the fields the
    processor reads, plus the receipt as the opaque payload.
    [transactionId] is optional on the platform side. *)
Record Purchase := mkPurchase {
  productId : string;
  transactionId : option string;
  transactionReceipt : string;
}.

#[global] Instance Purchase_eq_dec : EqDecision Purchase.
Proof. solve_decision. Defined.

(** [IAP.PurchaseError]: [code] is optional. *)
Record PurchaseError := mkPurchaseError {
  code : option string;
  message : string;
}.

(** A value thrown by a collaborator (an [Error] object). *)
Record JsError := mkJsError {
  err_name : string;
  err_message : string;
}.

#[global] Instance JsError_eq_dec : EqDecision JsError.
Proof. solve_decision. Defined.

(** [String(error)], as [Error.prototype.toString] builds it. *)
Definition error_to_string (e : JsError) : string :=
  if decide (err_name e = "") then err_message e
  else if decide (err_message e = "") then err_name e
  else err_name e +:+ ": " +:+ err_message e.

(** [IapticErrorSeverity]; its values index a three-element array in the
    application service. *)
Inductive IapticErrorSeverity := INFO | WARNING | ERROR.

#[global] Instance IapticErrorSeverity_eq_dec : EqDecision IapticErrorSeverity.
Proof. solve_decision. Defined.

(** What [toIapticError] produces: an error object carrying a severity. *)
Record IapticError := mkIapticError {
  severity : IapticErrorSeverity;
  ie_code : string;
  ie_message : string;
}.

#[global] Instance IapticError_eq_dec : EqDecision IapticError.
Proof. solve_decision. Defined.

(** The answers of [products.getType] that [processPurchase] tells apart;
    [OtherType] stands for every other answer (the [switch] has no default
    branch). *)
Inductive ProductType := Consumable | NonConsumable | PaidSubscription | OtherType.

#[global] Instance ProductType_eq_dec : EqDecision ProductType.
Proof. solve_decision. Defined.

(** Modelled from the spec: the declaration of the pending-purchase states
    is not part of the sources at hand; section 3 of the design lists
    Idle, Validating, Finishing and Completed. *)
Inductive PendingState := Idle | Validating | Finishing | Completed.

#[global] Instance PendingState_eq_dec : EqDecision PendingState.
Proof. solve_decision. Defined.

(** An entry of the verified-purchase store of the library. *)
Record VerifiedPurchase := mkVerifiedPurchase {
  vp_id : string;
  vp_transactionId : option string;
}.

#[global] Instance VerifiedPurchase_eq_dec : EqDecision VerifiedPurchase.
Proof. solve_decision. Defined.

(** The collaborators [processPurchase] calls and that are fixed during a
    run: the product catalog, the verified-purchase store and the error
    classifier. *)
Record Collaborators := mkCollaborators {
  getType : string -> ProductType;
  getPurchase : string -> option string -> option VerifiedPurchase;
  toIapticError : JsError -> IapticErrorSeverity -> IapticError;
}.

Inductive LogLevel := LInfo | LDebug | LWarn.

(** Calls that leave the processor, in the order they are made. *)
Inductive Effect :=
| PendingUpdate (product : string) (st : PendingState)
| Validate (p : Purchase)
| FinishTransaction (p : Purchase) (isConsumable : bool)
| EmitError (e : IapticError).

(* ===================================================================== *)
(** ** State                                                              *)
(* ===================================================================== *)

(** Everything the class reads or writes: the process-wide global, the
    fields of the processor, the host's timer queue and clock, the
    subscriptions held by the platform emitter, the pending-purchase
    tracker of the library, and the record of outgoing calls. *)
Record State := mkState {
  active_iap_events_processor : option string;
  id : string;
  onPurchaseUpdate : option nat;
  onPurchaseError : option nat;
  purchases : gmap string Purchase;
  now : Z;
  timers : list (Z * string);
  updateListeners : list nat;
  errorListeners : list nat;
  nextHandle : nat;
  pendingPurchases : gmap string PendingState;
  trace : list Effect;
  logs : list (LogLevel * string);
}.

Definition set_active (v : option string) (s : State) : State :=
  mkState v (id s) (onPurchaseUpdate s) (onPurchaseError s) (purchases s)
    (now s) (timers s) (updateListeners s) (errorListeners s) (nextHandle s)
    (pendingPurchases s) (trace s) (logs s).

Definition set_subscriptions (u e : option nat) (s : State) : State :=
  mkState (active_iap_events_processor s) (id s) u e (purchases s)
    (now s) (timers s) (updateListeners s) (errorListeners s) (nextHandle s)
    (pendingPurchases s) (trace s) (logs s).

Definition set_purchases (m : gmap string Purchase) (s : State) : State :=
  mkState (active_iap_events_processor s) (id s) (onPurchaseUpdate s)
    (onPurchaseError s) m
    (now s) (timers s) (updateListeners s) (errorListeners s) (nextHandle s)
    (pendingPurchases s) (trace s) (logs s).

Definition set_clock (t : Z) (tm : list (Z * string)) (s : State) : State :=
  mkState (active_iap_events_processor s) (id s) (onPurchaseUpdate s)
    (onPurchaseError s) (purchases s)
    t tm (updateListeners s) (errorListeners s) (nextHandle s)
    (pendingPurchases s) (trace s) (logs s).

Definition set_listeners (u e : list nat) (n : nat) (s : State) : State :=
  mkState (active_iap_events_processor s) (id s) (onPurchaseUpdate s)
    (onPurchaseError s) (purchases s)
    (now s) (timers s) u e n
    (pendingPurchases s) (trace s) (logs s).

Definition set_pending (m : gmap string PendingState) (s : State) : State :=
  mkState (active_iap_events_processor s) (id s) (onPurchaseUpdate s)
    (onPurchaseError s) (purchases s)
    (now s) (timers s) (updateListeners s) (errorListeners s) (nextHandle s)
    m (trace s) (logs s).

Definition emit (e : Effect) (s : State) : State :=
  mkState (active_iap_events_processor s) (id s) (onPurchaseUpdate s)
    (onPurchaseError s) (purchases s)
    (now s) (timers s) (updateListeners s) (errorListeners s) (nextHandle s)
    (pendingPurchases s) (trace s ++ [e]) (logs s).

Definition log (l : LogLevel) (msg : string) (s : State) : State :=
  mkState (active_iap_events_processor s) (id s) (onPurchaseUpdate s)
    (onPurchaseError s) (purchases s)
    (now s) (timers s) (updateListeners s) (errorListeners s) (nextHandle s)
    (pendingPurchases s) (trace s) (logs s ++ [(l, msg)]).

(** The state right after [new IapEventsProcessor(iaptic, events)] in a
    fresh process: [randomId()] is the host's choice [rid], and the
    constructor publishes it with [globalsSet]. *)
Definition constructor (rid : string) : State :=
  mkState (Some rid) rid None None ∅ 0 [] [] [] 0%nat ∅ [] [].

(** [globalsSet('active_iap_events_processor', other)], as the constructor
    of another processor instance performs it (a hot reload). *)
Definition globalsSet (other : string) (s : State) : State :=
  set_active (Some other) s.

(** [globalsGet('active_iap_events_processor') !== this.id] *)
Definition stale (s : State) : bool :=
  bool_decide (active_iap_events_processor s ≠ Some (id s)).

(* ===================================================================== *)
(** ** Pending-purchase tracker                                           *)
(* ===================================================================== *)

(** Modelled from the spec: the class behind [iaptic.pendingPurchases] is
    not part of the sources at hand.  Section 4.3: [getStatus] returns the
    current state, Idle if unknown. *)
Definition getStatus (product : string) (s : State) : PendingState :=
  default Idle (pendingPurchases s !! product).

(** Modelled from the spec: the class behind [iaptic.pendingPurchases] is
    not part of the sources at hand.  Section 4.3: [update] is an
    unconditional set; section 4.5 (5): a state change is published as a
    domain event, recorded here as a [PendingUpdate] effect. *)
Definition update (product : string) (st : PendingState) (s : State) : State :=
  emit (PendingUpdate product st) (set_pending (<[product := st]> (pendingPurchases s)) s).

(* ===================================================================== *)
(** ** Listener registry                                                  *)
(* ===================================================================== *)

(** [IAP.purchaseUpdatedListener(cb)] and [IAP.purchaseErrorListener(cb)]:
    the platform emitter hands out a fresh subscription handle. *)
Definition purchaseUpdatedListener (s : State) : nat * State :=
  (nextHandle s,
   set_listeners (updateListeners s ++ [nextHandle s]) (errorListeners s)
     (S (nextHandle s)) s).

Definition purchaseErrorListener (s : State) : nat * State :=
  (nextHandle s,
   set_listeners (updateListeners s) (errorListeners s ++ [nextHandle s])
     (S (nextHandle s)) s).

(** [subscription?.remove()] on either channel. *)
Definition remove (h : option nat) (s : State) : State :=
  match h with
  | None => s
  | Some n =>
      set_listeners (filter (λ k, k ≠ n) (updateListeners s))
        (filter (λ k, k ≠ n) (errorListeners s)) (nextHandle s) s
  end.

Definition addListeners (s : State) : State :=
  let s := log LInfo "addListeners" s in
  match onPurchaseUpdate s with
  | Some _ => s
  | None =>
      let '(hu, s) := purchaseUpdatedListener s in
      let s := set_subscriptions (Some hu) (onPurchaseError s) s in
      let '(he, s) := purchaseErrorListener s in
      set_subscriptions (onPurchaseUpdate s) (Some he) s
  end.

Definition removeListeners (s : State) : State :=
  let s := log LInfo "removeListeners" s in
  let s := remove (onPurchaseUpdate s) s in
  let s := remove (onPurchaseError s) s in
  set_subscriptions None None s.

(* ===================================================================== *)
(** ** Purchase cache                                                     *)
(* ===================================================================== *)

(** [purchase.transactionId ?? purchase.productId] *)
Definition identity (p : Purchase) : string :=
  default (productId p) (transactionId p).

(** The delay of the deletion timer of line 69, in milliseconds. *)
Definition retention : Z := 60000.

(** Lines 66-69: [this.purchases.set(identity, purchase)] followed by
    [setTimeout(() => this.purchases.delete(identity), 60000)]. *)
Definition put (p : Purchase) (s : State) : State :=
  let s := set_purchases (<[identity p := p]> (purchases s)) s in
  set_clock (now s) (timers s ++ [(now s + retention, identity p)]) s.

(** [this.purchases.get(identity)] *)
Definition get (ident : string) (s : State) : option Purchase :=
  purchases s !! ident.

(** The host's clock reaches [t]: every timer whose delay has elapsed
    runs its callback, in the order the timers were set. *)
Definition due (t : Z) (tm : Z * string) : bool := bool_decide (tm.1 ≤ t).

Definition run_timer (s : State) (tm : Z * string) : State :=
  set_purchases (delete tm.2 (purchases s)) s.

Definition elapse (t : Z) (s : State) : State :=
  let fired := filter (λ tm, due t tm = true) (timers s) in
  let kept := filter (λ tm, due t tm = false) (timers s) in
  set_clock (Z.max (now s) t) kept (foldl run_timer s fired).

(* ===================================================================== *)
(** ** processPurchase and processError                                   *)
(* ===================================================================== *)

(** How an awaited promise settles. *)
Inductive Settled (A : Type) :=
| Resolved (a : A)
| Rejected (e : JsError).
Arguments Resolved {A} a.
Arguments Rejected {A} e.

(** How a call of [processPurchase] ends: it returns ([undefined], or what
    [getPurchase] gave) or it throws. *)
Inductive Outcome :=
| Returned (r : option VerifiedPurchase)
| Thrown (e : IapticError).

#[global] Instance Outcome_eq_dec : EqDecision Outcome.
Proof. solve_decision. Defined.

(** Where a call of [processPurchase] is suspended: at the 100 ms timer of
    the wait loop (line 86), at [iaptic.validate] (line 94), at
    [IAP.finishTransaction] of the unverified branch (line 101) or of the
    verified branch (line 127); or it is over. *)
Inductive Pc :=
| AwaitTimer
| AwaitValidate
| AwaitFinishUnverified
| AwaitFinishVerified
| Done (o : Outcome).

#[global] Instance Pc_eq_dec : EqDecision Pc.
Proof. solve_decision. Defined.

(** What wakes a suspended call up. *)
Inductive Wake :=
| TimerFired
| ValidateSettled (r : Settled bool)
| FinishSettled (r : Settled unit).

Definition bool_to_string (b : bool) : string :=
  if b then "true" else "false".

(** Lines 71-78.  The result is the error to throw, if any. *)
Definition reportError (env : Collaborators) (inBackground : bool)
    (err : JsError) (sev : IapticErrorSeverity) (s : State)
  : State * option IapticError :=
  if inBackground then (emit (EmitError (toIapticError env err sev)) s, None)
  else (s, Some (toIapticError env err sev)).

(** Lines 110-113: the handler of the outer [try]. *)
Definition catch_error (env : Collaborators) (inBackground : bool)
    (err : JsError) (s : State) : State * Pc :=
  match reportError env inBackground err WARNING s with
  | (s, Some e) => (s, Done (Thrown e))
  | (s, None) => (s, Done (Returned None))
  end.

(** The call [IAP.finishTransaction({ purchase, isConsumable })] of lines
    101 and 127. *)
Definition finishTransaction (env : Collaborators) (p : Purchase) (s : State) : State :=
  emit (FinishTransaction p (bool_decide (getType env (productId p) = Consumable))) s.

(** Lines 135-136. *)
Definition completed (p : Purchase) (s : State) : State * Pc :=
  let s := log LDebug "processPurchase completed" s in
  (update (productId p) Completed s, Done (Returned None)).

(** Lines 59-94: from the call to the first suspension point. *)
Definition processPurchase (env : Collaborators) (p : Purchase)
    (inBackground : bool) (s : State) : State * Pc :=
  if stale s then (s, Done (Returned None))
  else
    let s := log LInfo
      ("[" +:+ id s +:+ "] Processing purchase: " +:+ identity p +:+
       " for product: " +:+ productId p +:+ " in background: " +:+
       bool_to_string inBackground) s in
    let s := put p s in
    if decide (getStatus (productId p) s = Validating) then
      (log LInfo "🔄 Purchase is already being validated, waiting for status to change" s,
       AwaitTimer)
    else
      let s := update (productId p) Validating s in
      (emit (Validate p) s, AwaitValidate).

(** The state a live call leaves behind before it looks at the status:
    lines 63-69. *)
Definition entered (p : Purchase) (bg : bool) (s : State) : State :=
  put p (log LInfo
    ("[" +:+ id s +:+ "] Processing purchase: " +:+ identity p +:+
     " for product: " +:+ productId p +:+ " in background: " +:+
     bool_to_string bg) s).

(** Lines 86-137: from one suspension point to the next.  [None] when the
    wake-up does not match what the call is waiting for. *)
Definition resume (env : Collaborators) (p : Purchase) (inBackground : bool)
    (pc : Pc) (w : Wake) (s : State) : option (State * Pc) :=
  match pc, w with
  | AwaitTimer, TimerFired =>
      if decide (getStatus (productId p) s ≠ Validating)
      then Some (s, Done (Returned (getPurchase env (productId p) (transactionId p))))
      else Some (s, AwaitTimer)
  | AwaitValidate, ValidateSettled (Resolved verified) =>
      let s := log LDebug
        ("processPurchase has validated the purchase (verified: " +:+
         bool_to_string verified +:+ ")") s in
      if negb verified then
        let s := log LDebug "processPurchase is finishing the purchase" s in
        let s := update (productId p) Finishing s in
        Some (finishTransaction env p s, AwaitFinishUnverified)
      else
        match getType env (productId p) with
        | Consumable => Some (completed p s)
        | NonConsumable | PaidSubscription =>
            let s := log LDebug
              "processPurchase is finishing the purchase because it is a non-consumable or paid subscription" s in
            let s := update (productId p) Finishing s in
            Some (finishTransaction env p s, AwaitFinishVerified)
        | OtherType => Some (completed p s)
        end
  | AwaitValidate, ValidateSettled (Rejected e) =>
      Some (catch_error env inBackground e s)
  | AwaitFinishUnverified, FinishSettled (Resolved _) =>
      Some (update (productId p) Completed s, Done (Returned None))
  | AwaitFinishUnverified, FinishSettled (Rejected e) =>
      let s := log LInfo
        ("Failed to finish unverified purchase: " +:+ error_to_string e +:+
         " (this is fine, we tried)") s in
      Some (update (productId p) Completed s, Done (Returned None))
  | AwaitFinishVerified, FinishSettled (Resolved _) =>
      Some (completed p s)
  | AwaitFinishVerified, FinishSettled (Rejected e) =>
      let s := log LInfo
        ("Failed to finish unverified purchase: " +:+ err_message e) s in
      Some (completed p s)
  | _, _ => None
  end.

(** Lines 139-144. *)
Definition processError (error : PurchaseError) (s : State) : State :=
  if stale s then s
  else
    log LWarn
      ("[" +:+ id s +:+ "] IAP.PurchaseError #" +:+ id s +:+ " #" +:+
       default "undefined" (code error) +:+ " - " +:+ message error) s.

(** The key extractors handed to the two debounced processors (lines 27
    and 28): [p.transactionId ?? ''] and [e.code ?? '']. *)
Definition purchaseKey (p : Purchase) : string := default "" (transactionId p).
Definition errorKey (e : PurchaseError) : string := default "" (code e).

(* ===================================================================== *)
(** ** Interleaved calls                                                  *)
(* ===================================================================== *)

(** A call of [processPurchase] together with the point it has reached. *)
Record Task := mkTask {
  purchase : Purchase;
  inBackground : bool;
  pc : Pc;
}.

Record System := mkSystem {
  shared : State;
  tasks : list Task;
}.

(** What can happen next on the event loop: [processPurchase] is called
    (and runs to its first suspension point), the promise a suspended call
    waits for settles, the clock advances, or another processor instance
    is constructed. *)
Inductive Action :=
| Call (p : Purchase) (inBackground : bool)
| Settle (i : nat) (w : Wake)
| Tick (t : Z)
| HotReload (other : string).

Definition step (env : Collaborators) (a : Action) (sys : System) : option System :=
  match a with
  | Call p bg =>
      let '(s, pc) := processPurchase env p bg (shared sys) in
      Some (mkSystem s (tasks sys ++ [mkTask p bg pc]))
  | Settle i w =>
      t ← tasks sys !! i;
      '(s, pc') ← resume env (purchase t) (inBackground t) (pc t) w (shared sys);
      Some (mkSystem s (<[i := mkTask (purchase t) (inBackground t) pc']> (tasks sys)))
  | Tick t => Some (mkSystem (elapse t (shared sys)) (tasks sys))
  | HotReload other => Some (mkSystem (globalsSet other (shared sys)) (tasks sys))
  end.

Fixpoint run (env : Collaborators) (acts : list Action) (sys : System) : option System :=
  match acts with
  | [] => Some sys
  | a :: acts => sys' ← step env a sys; run env acts sys'
  end.

(** The calls of [iaptic.validate] for [product] that have started and not
    settled yet. *)
Definition validating_now (product : string) (sys : System) : list Task :=
  filter (λ t, productId (purchase t) = product ∧ pc t = AwaitValidate) (tasks sys).

(** How often the finalizer has been called for transaction [t]. *)
Definition is_finish_of (t : string) (e : Effect) : bool :=
  match e with
  | FinishTransaction p _ => bool_decide (transactionId p = Some t)
  | _ => false
  end.

Definition finish_count (t : string) (s : State) : nat :=
  length (filter (λ e, is_finish_of t e = true) (trace s)).

(** The calls for transaction [t] that are suspended at the validation
    service: the ones that may still reach the finalizer. *)
Definition awaits_validation (t : string) (k : Task) : Prop :=
  transactionId (purchase k) = Some t ∧ pc k = AwaitValidate.

#[global] Instance awaits_validation_dec t k : Decision (awaits_validation t k).
Proof. unfold awaits_validation. apply _. Defined.

Definition finish_budget (t : string) (sys : System) : nat :=
  (finish_count t (shared sys) + length (filter (awaits_validation t) (tasks sys)))%nat.

Definition is_call_of (t : string) (a : Action) : bool :=
  match a with
  | Call p _ => bool_decide (transactionId p = Some t)
  | _ => false
  end.

Definition call_count (t : string) (acts : list Action) : nat :=
  length (filter (λ a, is_call_of t a = true) acts).

(** The wait loop of lines 85-90 on its own: [n] firings of the 100 ms
    timer.  [peer 0] stands for whatever the rest of the program does to
    the state before the next firing, [peer 1] before the one after, and
    so on. *)
Fixpoint wait (env : Collaborators) (p : Purchase) (inBackground : bool)
    (peer : nat -> State -> State) (n : nat) (s : State) : State * Pc :=
  match n with
  | O => (s, AwaitTimer)
  | S n =>
      match resume env p inBackground AwaitTimer TimerFired (peer O s) with
      | Some (s', AwaitTimer) => wait env p inBackground (λ k, peer (S k)) n s'
      | Some r => r
      | None => (peer O s, AwaitTimer)
      end
  end.

(** The state the wait loop reads at firing [k] (counted from 0), as long
    as it is still waiting. *)
Fixpoint seen (peer : nat -> State -> State) (k : nat) (s : State) : State :=
  match k with
  | O => peer O s
  | S k => seen (λ j, peer (S j)) k (peer O s)
  end.

(* ===================================================================== *)
(** ** Coalescing queue                                                   *)
(* ===================================================================== *)

Module Debounced.

(** Modelled from the spec: [DebouncedProcessor.ts] is not part of the
    sources at hand.  Section 4.2: the queue is generic over an event type
    and a key-extraction function; processing of a key is scheduled after
    a short coalescing delay.  [scheduled] maps a key to the time its
    processing is due and to its pending payload, in scheduling order;
    [handled] records the handler's invocations, oldest first.  A run of
    the handler is one step here: its in-flight phase is not represented. *)
Record t (T : Type) := mk {
  extractKey : T -> string;
  delay : Z;
  clock : Z;
  scheduled : list (string * (Z * T));
  handled : list (string * T);
}.
Arguments mk {T}.
Arguments extractKey {T}.
Arguments delay {T}.
Arguments clock {T}.
Arguments scheduled {T}.
Arguments handled {T}.

(** Modelled from the spec: [new DebouncedProcessor(handler, extractKey)];
    the length of the coalescing delay is not given and is a parameter. *)
Definition create {T} (key : T -> string) (d : Z) : t T := mk key d 0 [] [].

Definition has_key {T} (k : string) (e : string * (Z * T)) : Prop := e.1 = k.

#[global] Instance has_key_dec {T} k (e : string * (Z * T)) : Decision (has_key k e).
Proof. unfold has_key. apply _. Defined.

Definition replace_payload {T} (k : string) (x : T) (e : string * (Z * T))
  : string * (Z * T) :=
  if decide (has_key k e) then (e.1, (e.2.1, x)) else e.

(** Modelled from the spec: section 4.2, [add(event)] computes
    [key = extractKey(event)]; if no processing for [key] is scheduled, it
    schedules processing of this event after the coalescing delay;
    otherwise it replaces the pending payload with the newest event rather
    than scheduling a second run.  It does not run the handler. *)
Definition add {T} (x : T) (q : t T) : t T :=
  let k := extractKey q x in
  match filter (has_key k) (scheduled q) with
  | [] => mk (extractKey q) (delay q) (clock q)
            (scheduled q ++ [(k, (clock q + delay q, x))]) (handled q)
  | _ :: _ => mk (extractKey q) (delay q) (clock q)
            (replace_payload k x <$> scheduled q) (handled q)
  end.

Definition is_due {T} (now : Z) (e : string * (Z * T)) : Prop := e.2.1 ≤ now.

#[global] Instance is_due_dec {T} now (e : string * (Z * T)) : Decision (is_due now e).
Proof. unfold is_due. apply _. Defined.

(** Modelled from the spec: section 4.2, background processing.  When the
    clock reaches [now], every key whose coalescing delay has elapsed is
    handed to the handler with its pending payload and is no longer
    scheduled. *)
Definition advance {T} (now : Z) (q : t T) : t T :=
  mk (extractKey q) (delay q) (Z.max (clock q) now)
     (filter (λ e, ¬ is_due now e) (scheduled q))
     (handled q ++ ((λ e, (e.1, e.2.2)) <$> filter (is_due now) (scheduled q))).

(** An event arriving at time [a.1]. *)
Definition submit {T} (q : t T) (a : Z * T) : t T := add a.2 (advance a.1 q).

(** The handler's invocations for key [k]. *)
Definition handled_for {T} (k : string) (q : t T) : list T :=
  snd <$> filter (λ h, h.1 = k) (handled q).

End Debounced.

(** Lines 27 and 28: the two queues of the processor.  The handler of the
    first is [p => this.processPurchase(p, true)]. *)
Definition purchaseProcessor (d : Z) : Debounced.t Purchase :=
  Debounced.create purchaseKey d.
Definition errorProcessor (d : Z) : Debounced.t PurchaseError :=
  Debounced.create errorKey d.

(** The calls of [processPurchase] the purchase queue has made. *)
Definition processing_calls (q : Debounced.t Purchase) : list Action :=
  (λ h, Call h.2 true) <$> Debounced.handled q.

(* ===================================================================== *)
(** ** Concrete scenarios                                                 *)
(* ===================================================================== *)

Module Scenario.

Definition catalog (product : string) : ProductType :=
  if decide (product = "coins") then Consumable
  else if decide (product = "p1") then NonConsumable
  else if decide (product = "sub1") then PaidSubscription
  else OtherType.

Definition env : Collaborators :=
  mkCollaborators catalog
    (λ product tx, Some (mkVerifiedPurchase product tx))
    (λ err sev, mkIapticError sev (err_name err) (err_message err)).

Definition tx42 : Purchase := mkPurchase "p1" (Some "tx42") "receipt-42".
Definition tx43 : Purchase := mkPurchase "p1" (Some "tx43") "receipt-43".
Definition tx44 : Purchase := mkPurchase "p1" (Some "tx44") "receipt-44".
Definition sub1 : Purchase := mkPurchase "sub1" (Some "tx7") "receipt-7".
Definition tx42_again : Purchase := mkPurchase "p1" (Some "tx42") "receipt-42b".
Definition tx42_latest : Purchase := mkPurchase "p1" (Some "tx42") "receipt-42c".
Definition coins : Purchase := mkPurchase "coins" None "receipt-c".
Definition gems : Purchase := mkPurchase "gems" None "receipt-g".

Definition network_down : JsError := mkJsError "Error" "Network request failed".

Definition boot : System := mkSystem (constructor "k3x9") [].

(** A validation fails; a second event for the same product arrives. *)
Definition stuck : list Action :=
  [ Call tx42 true;
    Settle 0 (ValidateSettled (Rejected network_down));
    Call tx43 true ].

(** The same event is delivered again after its processing completed. *)
Definition redelivery : list Action :=
  [ Call tx42 true;
    Settle 0 (ValidateSettled (Resolved true));
    Settle 0 (FinishSettled (Resolved ()));
    Call tx42 true;
    Settle 1 (ValidateSettled (Resolved true)) ].

(** Three purchases of one product: the second arrives while the first is
    being finished, the third after the first has completed. *)
Definition overlap : list Action :=
  [ Call tx42 true;
    Settle 0 (ValidateSettled (Resolved true));
    Call tx43 true;
    Settle 0 (FinishSettled (Resolved ()));
    Call tx44 true ].

(** The same purchase is processed at time 0 and again 30 seconds later;
    the clock then passes the first minute. *)
Definition twice_cached : list Action :=
  [ Call tx42 true;
    Tick 30000;
    Call tx42 true;
    Tick 60001 ].

(** A processor that has been started and stopped again. *)
Definition stopped : State := removeListeners (addListeners (constructor "k3x9")).

(** A processor superseded by a hot reload. *)
Definition superseded : State := globalsSet "m2q7" (constructor "k3x9").

(** The first purchase of "p1" is being validated. *)
Definition validating : State :=
  (processPurchase env tx42 true (constructor "k3x9")).1.

(** The rest of the program: the validation ends, and the status becomes
    Completed, just before the third firing of the wait timer. *)
Definition peer_completes (k : nat) (st : State) : State :=
  if decide (k = 2%nat) then update "p1" Completed st else st.

End Scenario.

(* ===================================================================== *)
(** ** Footprint of a call                                                *)
(* ===================================================================== *)

(** The outgoing calls that a call [processPurchase(p, inBackground)] can
    make: status updates of its own product (to a state other than Idle),
    the validation and the finalization of its own purchase (with the
    consumable flag read from the catalog), and, in the background only,
    an [error] event carrying a WARNING. *)
Definition made_by (env : Collaborators) (p : Purchase) (inBackground : bool)
    (e : Effect) : Prop :=
  match e with
  | PendingUpdate product st => product = productId p ∧ st ≠ Idle
  | Validate q => q = p
  | FinishTransaction q isConsumable =>
      q = p ∧ isConsumable = bool_decide (getType env (productId p) = Consumable)
  | EmitError x => inBackground = true ∧ ∃ err, x = toIapticError env err WARNING
  end.

(** The arguments of the calls of [processPurchase] made so far. *)
Definition callers (sys : System) : list (Purchase * bool) :=
  (λ k, (purchase k, inBackground k)) <$> tasks sys.

Definition calls_of (acts : list Action) : list (Purchase * bool) :=
  omap (λ a, match a with Call p bg => Some (p, bg) | _ => None end) acts.

(** Counting the validations and the finalizations of the purchases that
    [sel] selects, and the selected calls suspended at the validation
    service. *)
Definition validates (sel : Purchase -> bool) (e : Effect) : bool :=
  match e with Validate p => sel p | _ => false end.

Definition finishes (sel : Purchase -> bool) (e : Effect) : bool :=
  match e with FinishTransaction p _ => sel p | _ => false end.

Definition count_effects (f : Effect -> bool) (s : State) : nat :=
  length (filter (λ e, f e = true) (trace s)).

Definition in_validation (sel : Purchase -> bool) (k : Task) : Prop :=
  sel (purchase k) = true ∧ pc k = AwaitValidate.

#[global] Instance in_validation_dec sel k : Decision (in_validation sel k).
Proof. unfold in_validation. apply _. Defined.

(** The selected calls among the arguments of the calls made. *)
Definition selected_calls (sel : Purchase -> bool) (acts : list Action) : nat :=
  length (filter (λ pb : Purchase * bool, sel pb.1 = true) (calls_of acts)).

(** How many settlements a call needs at most before it is over, once
    it has left the wait loop (the wait loop itself has no such bound; it
    is ranked above the other suspension points). *)
Definition settlements_left (c : Pc) : nat :=
  match c with
  | AwaitTimer => 3
  | AwaitValidate => 2
  | AwaitFinishUnverified | AwaitFinishVerified => 1
  | Done _ => 0
  end.

(** The outgoing calls that concern [product]. *)
Definition concerns (product : string) (e : Effect) : bool :=
  match e with
  | PendingUpdate q _ => bool_decide (q = product)
  | Validate p | FinishTransaction p _ => bool_decide (productId p = product)
  | EmitError _ => false
  end.



(** Every cached entry has a pending deletion timer that is due within
    the retention delay from now. *)
Definition covered (s : State) : Prop :=
  ∀ k, is_Some (purchases s !! k) →
       ∃ d, (d, k) ∈ timers s ∧ d ≤ now s + retention.

(** An action that leaves the cache entry [k] alone until time [d]: no
    call for an event cached under [k], no clock reading from [d] on. *)
Definition quiet (k : string) (d : Z) (a : Action) : Prop :=
  match a with
  | Call q _ => identity q ≠ k
  | Tick t => t < d
  | _ => True
  end.

(** A call that has thrown was a foreground call, and what it threw is a
    classified WARNING. *)
Definition throws_in_foreground (env : Collaborators) (k : Task) : Prop :=
  ∀ e, pc k = Done (Thrown e) →
       inBackground k = false ∧ ∃ err, e = toIapticError env err WARNING.

(** The handles held by the platform emitter are older than the next one
    it will hand out. *)
Definition handles_fresh (s : State) : Prop :=
  Forall (λ h, (h < nextHandle s)%nat) (updateListeners s ++ errorListeners s).

(* ===================================================================== *)
(** ** Application service                                                *)
(* ===================================================================== *)

Module AppService.

(** What [showError] can be handed: an [IapticError] or any other
    [Error]. *)
Inductive AppError :=
| Classified (e : IapticError)
| Plain (e : JsError).

(** What the service reads from its surroundings: [Platform.OS], the
    localized texts of an [IapticError], the numeric value of a severity
    (the index into [SYMBOLS]) and the clock reading
    [new Date().toISOString()]. *)
Record Device := mkDevice {
  OS : string;
  localizedTitle : IapticError -> string;
  localizedMessage : IapticError -> string;
  severityValue : IapticErrorSeverity -> nat;
  toISOString : string;
}.

(** What the service does to the outside: a console line, an Android
    toast of short duration, an alert with a title and an optional
    message, a restore-progress update of the application state. *)
Inductive Ui :=
| ConsoleLog (line : string)
| ToastShort (message : string)
| Alert (title : string) (message : option string)
| RestoreProgress (processed total : nat).

Definition SYMBOLS : list string := ["💡"; "🔔"; "❌"].

(** Lines 8-11.  An index outside the array reads [undefined]. *)
Definition log (dev : Device) (message : string) (sev : IapticErrorSeverity) : list Ui :=
  [ConsoleLog (toISOString dev +:+ " " +:+
               default "undefined" (SYMBOLS !! severityValue dev sev) +:+ " " +:+
               message)].

(** Lines 66-82. *)
Definition showError (dev : Device) (error : AppError) : list Ui :=
  match error with
  | Classified e =>
      log dev ("IapticRN #" +:+ ie_code e +:+ ": " +:+ ie_message e) (severity e) ++
      match severity e with
      | INFO => []
      | sev =>
          if bool_decide (sev = WARNING) && bool_decide (OS dev = "android")
          then [ToastShort (localizedMessage dev e)]
          else [Alert (localizedTitle dev e) (Some (localizedMessage dev e))]
      end
  | Plain e =>
      log dev (err_message e) ERROR ++ [Alert "Error" (Some (err_message e))]
  end.

(** Lines 87-94: [order] is how [iaptic.order(offer)] settles. *)
Definition handleSubscribeButton (dev : Device) (order : option AppError) : list Ui :=
  match order with
  | None => []
  | Some err => showError dev err
  end.

(** Lines 106-115: [progress] lists the progress reports the library
    makes before [iaptic.restorePurchases] settles with [result]. *)
Definition restorePurchases (dev : Device) (progress : list (nat * nat))
    (result : AppError + nat) : list Ui :=
  ((λ r, RestoreProgress r.1 r.2) <$> progress) ++
  match result with
  | inr numRestored => [Alert (pretty numRestored +:+ " purchases restored.") None]
  | inl err => showError dev err
  end.

(** What the user sees: toasts and alerts. *)
Definition visible (u : Ui) : bool :=
  match u with
  | ToastShort _ | Alert _ _ => true
  | _ => false
  end.

Definition is_console (u : Ui) : bool :=
  match u with ConsoleLog _ => true | _ => false end.

End AppService.

(** A second set of concrete inputs. *)
Module Sample.

Definition phone : AppService.Device :=
  AppService.mkDevice "android"
    (λ e, "Purchase problem") (λ e, ie_message e)
    (λ sev, match sev with INFO => 0 | WARNING => 1 | ERROR => 2 end)%nat
    "2025-01-01T00:00:00.000Z".

Definition cancelled : IapticError := mkIapticError INFO "6777006" "cancelled by user".

(** A processor in a process where the platform emitter already serves
    another subscriber. *)
Definition shared_emitter : State :=
  mkState (Some "k3x9") "k3x9" None None ∅ 0 [] [0%nat] [1%nat] 2%nat ∅ [] [].


Definition busy : list Action :=
  [ Call Scenario.tx42 true;
    Call Scenario.coins false;
    Settle 0 (ValidateSettled (Resolved true));
    Settle 1 (ValidateSettled (Rejected Scenario.network_down));
    Tick 30000;
    Call Scenario.sub1 true;
    Settle 0 (FinishSettled (Resolved ())) ].

End Sample.

(* ===================================================================== *)
(** * Properties                                                          *)
(* ===================================================================== *)

(** ** Liveness filter *)

Lemma stale_true (s : State) :
  active_iap_events_processor s ≠ Some (id s) → stale s = true.
Proof. intros H. unfold stale. by apply bool_decide_eq_true. Qed.

Lemma stale_false (s : State) :
  active_iap_events_processor s = Some (id s) → stale s = false.
Proof. intros H. unfold stale. apply bool_decide_eq_false. by intros []. Qed.

(** C7.  Stale-generation discard: when the process-wide token is not the
    processor's own id, [processPurchase] returns at once and
    [processError] does nothing; the whole state (cache, timers, pending
    statuses, outgoing calls and domain events, log) is left as it was. *)
Theorem stale_generation_discard
    (env : Collaborators) (s : State) (p : Purchase) (bg : bool) (e : PurchaseError) :
  active_iap_events_processor s ≠ Some (id s) →
  processPurchase env p bg s = (s, Done (Returned None)) ∧ processError e s = s.
Proof.
  intros Hstale. apply stale_true in Hstale.
  unfold processPurchase, processError. by rewrite Hstale.
Qed.

Lemma stale_generation_discard_witness :
  active_iap_events_processor Scenario.superseded ≠ Some (id Scenario.superseded) ∧
  processPurchase Scenario.env Scenario.tx42 true Scenario.superseded
    = (Scenario.superseded, Done (Returned None)) ∧
  processError (mkPurchaseError (Some "E_USER_CANCELLED") "cancelled") Scenario.superseded
    = Scenario.superseded.
Proof.
  split; [by vm_compute|].
  apply (stale_generation_discard Scenario.env Scenario.superseded Scenario.tx42 true).
  by vm_compute.
Defined.

(** ** The start of a live call *)

Lemma getStatus_put (product : string) (p : Purchase) (s : State) :
  getStatus product (put p s) = getStatus product s.
Proof. reflexivity. Qed.

Lemma getStatus_update (product : string) (st : PendingState) (s : State) :
  getStatus product (update product st s) = st.
Proof. unfold getStatus, update. simpl. by rewrite lookup_insert_eq. Qed.

Lemma processPurchase_validates env p bg s :
  active_iap_events_processor s = Some (id s) →
  getStatus (productId p) s ≠ Validating →
  processPurchase env p bg s =
    (emit (Validate p) (update (productId p) Validating (entered p bg s)), AwaitValidate).
Proof.
  intros Hlive Hst. unfold processPurchase. rewrite (stale_false _ Hlive).
  simpl. rewrite getStatus_put.
  change (getStatus (productId p) (log _ _ s)) with (getStatus (productId p) s).
  by destruct (decide _).
Qed.

Lemma processPurchase_waits env p bg s :
  active_iap_events_processor s = Some (id s) →
  getStatus (productId p) s = Validating →
  processPurchase env p bg s =
    (log LInfo "🔄 Purchase is already being validated, waiting for status to change"
       (entered p bg s), AwaitTimer).
Proof.
  intros Hlive Hst. unfold processPurchase. rewrite (stale_false _ Hlive).
  simpl. rewrite getStatus_put.
  change (getStatus (productId p) (log _ _ s)) with (getStatus (productId p) s).
  by destruct (decide _).
Qed.

(** ** Validation failure *)

(** C9.  A live invocation that finds a status other than Validating
    starts a validation, which sets the status to Validating.  When that
    validation fails, in whatever state [sv] the failure finds the program,
    the error is classified with severity WARNING and surfaced: thrown to
    the caller in the foreground, emitted as an [error] event in the
    background.  The call is then over; nothing else changes: no status is
    written, no finalizer is called, and a status that was Validating is
    still Validating. *)
Theorem validation_failure
    (env : Collaborators) (p : Purchase) (bg : bool) (s sv : State) (err : JsError) :
  active_iap_events_processor s = Some (id s) →
  getStatus (productId p) s ≠ Validating →
  ∃ s1 s2,
    processPurchase env p bg s = (s1, AwaitValidate) ∧
    trace s1 = trace s ++ [PendingUpdate (productId p) Validating; Validate p] ∧
    getStatus (productId p) s1 = Validating ∧
    resume env p bg AwaitValidate (ValidateSettled (Rejected err)) sv
      = Some (s2, Done (if bg then Returned None
                        else Thrown (toIapticError env err WARNING))) ∧
    s2 = (if bg then emit (EmitError (toIapticError env err WARNING)) sv else sv) ∧
    (getStatus (productId p) sv = Validating → getStatus (productId p) s2 = Validating).
Proof.
  intros Hlive Hst.
  exists (emit (Validate p) (update (productId p) Validating (entered p bg s))).
  exists (if bg then emit (EmitError (toIapticError env err WARNING)) sv else sv).
  split; [by apply processPurchase_validates|].
  split; [by simpl; rewrite <- app_assoc|].
  split; [apply (getStatus_update (productId p) Validating)|].
  split; [by destruct bg|].
  split; [reflexivity|].
  by destruct bg.
Qed.

Lemma validation_failure_witness :
  ∃ s1 s2,
    processPurchase Scenario.env Scenario.sub1 true (constructor "k3x9")
      = (s1, AwaitValidate) ∧
    resume Scenario.env Scenario.sub1 true AwaitValidate
      (ValidateSettled (Rejected Scenario.network_down)) s1
      = Some (s2, Done (Returned None)) ∧
    getStatus "sub1" s2 = Validating.
Proof.
  destruct (validation_failure Scenario.env Scenario.sub1 true (constructor "k3x9")
              (processPurchase Scenario.env Scenario.sub1 true (constructor "k3x9")).1
              Scenario.network_down)
    as (s1 & s2 & Hstart & _ & _ & Hres & _ & Hst); [reflexivity | by vm_compute |].
  exists s1, s2. rewrite Hstart in Hres, Hst. simpl in Hres, Hst.
  split; [exact Hstart|]. split; [exact Hres|].
  apply Hst. injection Hstart as <-. by vm_compute.
Defined.

(** ** Success path *)

(** C8.  Success path of a live invocation that starts its own validation.
    [sv] is the state in which the validation settles, [sf] the state in
    which the finalizer settles; the rest of the program may have run in
    between.  Unverified: the status becomes Finishing, the finalizer is
    called once whatever the product type, its failure is only logged, the
    status becomes Completed and the call returns.  Verified: a consumable
    is not finalized; a non-consumable or a paid subscription is finalized
    once, with the same tolerance; the status ends Completed. *)
Theorem success_path
    (env : Collaborators) (p : Purchase) (bg : bool) (s sv sf : State) :
  active_iap_events_processor s = Some (id s) →
  getStatus (productId p) s ≠ Validating →
  (∃ s1,
     processPurchase env p bg s = (s1, AwaitValidate) ∧
     trace s1 = trace s ++ [PendingUpdate (productId p) Validating; Validate p]) ∧
  (* verified = false *)
  (∃ s2,
     resume env p bg AwaitValidate (ValidateSettled (Resolved false)) sv
       = Some (s2, AwaitFinishUnverified) ∧
     getStatus (productId p) s2 = Finishing ∧
     trace s2 = trace sv ++
       [PendingUpdate (productId p) Finishing;
        FinishTransaction p (bool_decide (getType env (productId p) = Consumable))]) ∧
  (∀ r, ∃ s3,
     resume env p bg AwaitFinishUnverified (FinishSettled r) sf
       = Some (s3, Done (Returned None)) ∧
     trace s3 = trace sf ++ [PendingUpdate (productId p) Completed] ∧
     getStatus (productId p) s3 = Completed ∧
     logs s3 = logs sf ++
       match r with
       | Resolved _ => []
       | Rejected e =>
           [(LInfo, "Failed to finish unverified purchase: " +:+
                    error_to_string e +:+ " (this is fine, we tried)")]
       end) ∧
  (* verified = true, consumable *)
  (getType env (productId p) = Consumable →
   ∃ s2,
     resume env p bg AwaitValidate (ValidateSettled (Resolved true)) sv
       = Some (s2, Done (Returned None)) ∧
     trace s2 = trace sv ++ [PendingUpdate (productId p) Completed] ∧
     getStatus (productId p) s2 = Completed) ∧
  (* verified = true, non-consumable or paid subscription *)
  (getType env (productId p) = NonConsumable ∨
   getType env (productId p) = PaidSubscription →
   ∃ s2,
     resume env p bg AwaitValidate (ValidateSettled (Resolved true)) sv
       = Some (s2, AwaitFinishVerified) ∧
     getStatus (productId p) s2 = Finishing ∧
     trace s2 = trace sv ++ [PendingUpdate (productId p) Finishing;
                             FinishTransaction p false]) ∧
  (∀ r, ∃ s3,
     resume env p bg AwaitFinishVerified (FinishSettled r) sf
       = Some (s3, Done (Returned None)) ∧
     trace s3 = trace sf ++ [PendingUpdate (productId p) Completed] ∧
     getStatus (productId p) s3 = Completed ∧
     logs s3 = logs sf ++
       match r with
       | Resolved _ => []
       | Rejected e =>
           [(LInfo, "Failed to finish unverified purchase: " +:+ err_message e)]
       end ++ [(LDebug, "processPurchase completed")]).
Proof.
  intros Hlive Hst.
  split.
  { eexists. split; [by apply processPurchase_validates|].
    by simpl; rewrite <- app_assoc. }
  split.
  { eexists. split; [reflexivity|].
    split; [apply (getStatus_update (productId p) Finishing)|].
    simpl. by rewrite <- app_assoc. }
  split.
  { intros [[]|e]; eexists; (split; [reflexivity|]); (split; [reflexivity|]);
      (split; [apply (getStatus_update (productId p) Completed)|]).
    - by rewrite app_nil_r.
    - reflexivity. }
  split.
  { intros Hty. eexists. simpl. rewrite Hty.
    split; [reflexivity|]. split; [reflexivity|].
    apply (getStatus_update (productId p) Completed). }
  split.
  { intros Hty.
    exists (finishTransaction env p
              (update (productId p) Finishing
                (log LDebug
                  "processPurchase is finishing the purchase because it is a non-consumable or paid subscription"
                  (log LDebug
                    "processPurchase has validated the purchase (verified: true)" sv)))).
    split; [simpl; by destruct Hty as [-> | ->]|].
    split; [apply (getStatus_update (productId p) Finishing)|].
    unfold finishTransaction. simpl. rewrite <- app_assoc.
    destruct Hty as [-> | ->]; reflexivity. }
  intros [[]|e]; eexists; (split; [reflexivity|]); (split; [reflexivity|]);
    (split; [apply (getStatus_update (productId p) Completed)|]).
  - reflexivity.
  - simpl. by rewrite <- app_assoc.
Qed.

Lemma success_path_witness :
  ∃ s1 s2 s3,
    processPurchase Scenario.env Scenario.sub1 false (constructor "k3x9")
      = (s1, AwaitValidate) ∧
    resume Scenario.env Scenario.sub1 false AwaitValidate
      (ValidateSettled (Resolved true)) s1 = Some (s2, AwaitFinishVerified) ∧
    resume Scenario.env Scenario.sub1 false AwaitFinishVerified
      (FinishSettled (Rejected Scenario.network_down)) s2
      = Some (s3, Done (Returned None)) ∧
    getStatus "sub1" s3 = Completed.
Proof.
  pose (s1 := (processPurchase Scenario.env Scenario.sub1 false (constructor "k3x9")).1).
  pose (s2 := default s1
    (fst <$> resume Scenario.env Scenario.sub1 false AwaitValidate
               (ValidateSettled (Resolved true)) s1)).
  destruct (success_path Scenario.env Scenario.sub1 false (constructor "k3x9") s1 s2)
    as (_ & _ & _ & _ & Hver & Hfin); [reflexivity | by vm_compute |].
  destruct Hver as (s2' & H2 & _); [by right|].
  destruct (Hfin (Rejected Scenario.network_down)) as (s3 & H3 & _ & Hst & _).
  exists s1, s2, s3. split; [reflexivity|].
  split; [by rewrite H2; vm_compute|]. split; [exact H3 | exact Hst].
Defined.

(** ** Listener registry *)

(** C6, as stated, fails: after [addListeners] and [removeListeners] the
    process-wide token still names this processor, and a purchase event
    handed to it is processed, up to the call of the validation service. *)
Lemma stop_keeps_token_live :
  active_iap_events_processor Scenario.stopped = Some (id Scenario.stopped) ∧
  (processPurchase Scenario.env Scenario.tx42 true Scenario.stopped).2 = AwaitValidate ∧
  trace (processPurchase Scenario.env Scenario.tx42 true Scenario.stopped).1
    = [PendingUpdate "p1" Validating; Validate Scenario.tx42].
Proof. by vm_compute. Qed.

(** C6, amended.  [removeListeners] unsubscribes both raw event channels
    and clears both subscription fields; it leaves the process-wide token
    and the processor's id as they are; on a processor that is not started
    it changes nothing but the log. *)
Theorem removeListeners_unsubscribes (s : State) :
  onPurchaseUpdate (removeListeners s) = None ∧
  onPurchaseError (removeListeners s) = None ∧
  (∀ h, onPurchaseUpdate s = Some h → h ∉ updateListeners (removeListeners s)) ∧
  (∀ h, onPurchaseError s = Some h → h ∉ errorListeners (removeListeners s)) ∧
  active_iap_events_processor (removeListeners s) = active_iap_events_processor s ∧
  id (removeListeners s) = id s ∧
  (onPurchaseUpdate s = None ∧ onPurchaseError s = None →
   removeListeners s = log LInfo "removeListeners" s).
Proof.
  destruct s as [act i u e pur t tm ul el nh pend tr lg].
  split; [reflexivity|]. split; [reflexivity|].
  split; [|split; [|split; [|split]]].
  - intros h Hu. simpl in Hu. subst u.
    destruct e as [he|]; unfold removeListeners; simpl;
      rewrite ?list_elem_of_filter; intuition.
  - intros h He. simpl in He. subst e.
    destruct u as [hu|]; unfold removeListeners; simpl;
      rewrite ?list_elem_of_filter; intuition.
  - by destruct u, e.
  - by destruct u, e.
  - simpl. by intros [-> ->].
Qed.

(** ** The wait for a peer validation *)

Lemma wait_while_validating env p bg : ∀ n peer s,
  (∀ k, (k < n)%nat → getStatus (productId p) (seen peer k s) = Validating) →
  wait env p bg peer n s
    = (match n with O => s | S m => seen peer m s end, AwaitTimer).
Proof.
  induction n as [|n IH]; intros peer s Hval; [reflexivity|].
  simpl. pose proof (Hval O ltac:(lia)) as H0. simpl in H0.
  destruct (decide _) as [Hne|_]; [by rewrite H0 in Hne|].
  rewrite IH.
  - by destruct n.
  - intros k Hk. apply (Hval (S k)). lia.
Qed.

Lemma wait_until_changed env p bg : ∀ n peer s m,
  (∀ k, (k < n)%nat → getStatus (productId p) (seen peer k s) = Validating) →
  getStatus (productId p) (seen peer n s) ≠ Validating →
  wait env p bg peer (S n + m) s
    = (seen peer n s, Done (Returned (getPurchase env (productId p) (transactionId p)))).
Proof.
  induction n as [|n IH]; intros peer s m Hval Hne.
  - simpl in *. by destruct (decide _).
  - pose proof (Hval O ltac:(lia)) as H0. simpl in H0.
    change (wait env p bg peer (S (S n) + m) s) with
      (match resume env p bg AwaitTimer TimerFired (peer O s) with
       | Some (s', AwaitTimer) => wait env p bg (λ k, peer (S k)) (S n + m) s'
       | Some r => r
       | None => (peer O s, AwaitTimer)
       end).
    simpl resume. destruct (decide _) as [Hc|_]; [by rewrite H0 in Hc|].
    rewrite IH; [reflexivity| |exact Hne].
    intros k Hk. apply (Hval (S k)). lia.
Qed.

(** C1, amended.  A live invocation that finds the status Validating at
    entry starts no validation and polls on a 100 ms timer.  Whatever the
    rest of the program does between two firings: as long as every firing
    so far has read Validating, the call is still waiting; at the first
    firing that reads another status it returns what [getPurchase] gives
    for the product and transaction.  There is no timeout: a status that
    stays Validating keeps the call waiting after any number of firings. *)
Theorem wait_ends_when_status_changes
    (env : Collaborators) (p : Purchase) (bg : bool) (s : State)
    (peer : nat -> State -> State) :
  active_iap_events_processor s = Some (id s) →
  getStatus (productId p) s = Validating →
  ∃ s1,
    processPurchase env p bg s = (s1, AwaitTimer) ∧
    trace s1 = trace s ∧
    ∀ n, (∀ k, (k < n)%nat → getStatus (productId p) (seen peer k s1) = Validating) →
      (wait env p bg peer n s1).2 = AwaitTimer ∧
      (getStatus (productId p) (seen peer n s1) ≠ Validating →
       ∀ m, wait env p bg peer (S n + m) s1
            = (seen peer n s1,
               Done (Returned (getPurchase env (productId p) (transactionId p))))).
Proof.
  intros Hlive Hst. eexists. split; [by apply processPurchase_waits|].
  split; [reflexivity|].
  intros n Hval. split.
  - by rewrite wait_while_validating.
  - intros Hne m. by apply wait_until_changed.
Qed.

Lemma wait_ends_when_status_changes_witness :
  ∃ s1,
    processPurchase Scenario.env Scenario.tx43 true Scenario.validating
      = (s1, AwaitTimer) ∧
    (wait Scenario.env Scenario.tx43 true Scenario.peer_completes 2 s1).2
      = AwaitTimer ∧
    (wait Scenario.env Scenario.tx43 true Scenario.peer_completes 3 s1).2
      = Done (Returned (Some (mkVerifiedPurchase "p1" (Some "tx43")))).
Proof.
  destruct (wait_ends_when_status_changes Scenario.env Scenario.tx43 true
              Scenario.validating Scenario.peer_completes)
    as (s1 & Hstart & _ & Hwait); [reflexivity | by vm_compute |].
  exists s1. split; [exact Hstart|].
  assert (s1 = (processPurchase Scenario.env Scenario.tx43 true
                  Scenario.validating).1) as Hs1
    by by rewrite Hstart.
  destruct (Hwait 2%nat) as [Hstill Hexit].
  { intros k Hk. rewrite Hs1.
    destruct k as [|[|k]]; [by vm_compute | by vm_compute | lia]. }
  split; [exact Hstill|].
  change 3%nat with (S 2 + 0)%nat.
  rewrite (Hexit ltac:(rewrite Hs1; by vm_compute) 0%nat). reflexivity.
Defined.

Lemma run_app env (a b : list Action) (sys : System) :
  run env (a ++ b) sys = run env a sys ≫= run env b.
Proof.
  revert sys. induction a as [|x a IH]; intros sys; [reflexivity|].
  simpl. destruct (step env x sys) as [sys'|]; [apply IH | reflexivity].
Qed.

Lemma poll_stutters env (sys : System) (i : nat) (t : Task) (n : nat) :
  tasks sys !! i = Some t →
  pc t = AwaitTimer →
  getStatus (productId (purchase t)) (shared sys) = Validating →
  run env (replicate n (Settle i TimerFired)) sys = Some sys.
Proof.
  intros Ht Hpc Hst. induction n as [|n IH]; [reflexivity|].
  simpl. rewrite Ht. simpl. rewrite Hpc. simpl.
  destruct (decide _) as [Hne|_]; [by rewrite Hst in Hne|].
  simpl. rewrite <- Hpc.
  replace (mkTask (purchase t) (inBackground t) (pc t)) with t by by destruct t.
  rewrite list_insert_id by done.
  replace (mkSystem (shared sys) (tasks sys)) with sys by by destruct sys.
  exact IH.
Qed.

(** C1, as stated, fails: the validation of a first event is rejected,
    which leaves the status of its product at Validating; a second event
    for that product then waits, and no number of timer firings ends the
    wait, by a return or by an error. *)
Lemma wait_never_ends :
  ¬ ∃ (n : nat) (sys : System) (o : Outcome),
      run Scenario.env (Scenario.stuck ++ replicate n (Settle 1 TimerFired))
        Scenario.boot = Some sys ∧
      pc <$> tasks sys !! 1%nat = Some (Done o).
Proof.
  intros (n & sys & o & Hrun & Hpc).
  rewrite run_app in Hrun.
  destruct (run Scenario.env Scenario.stuck Scenario.boot) as [sysB|] eqn:HB;
    [|discriminate].
  assert (tasks sysB !! 1%nat = Some (mkTask Scenario.tx43 true AwaitTimer)) as Ht.
  { vm_compute in HB. injection HB as <-. reflexivity. }
  assert (getStatus "p1" (shared sysB) = Validating) as Hst.
  { vm_compute in HB. injection HB as <-. by vm_compute. }
  simpl in Hrun.
  rewrite (poll_stutters _ _ _ _ n Ht eq_refl Hst) in Hrun.
  injection Hrun as <-. rewrite Ht in Hpc. discriminate.
Qed.

(** ** Purchase cache *)

Lemma purchases_run_timers (l : list (Z * string)) (s : State) :
  purchases (foldl run_timer s l) = foldl (λ m tm, delete tm.2 m) (purchases s) l.
Proof. revert s. induction l as [|tm l IH]; intros s; [reflexivity|]. simpl. by rewrite IH. Qed.

Lemma lookup_deleted_all (l : list (Z * string)) (m : gmap string Purchase) (k : string) :
  foldl (λ m tm, delete tm.2 m) m l !! k
    = if decide (k ∈ l.*2) then None else m !! k.
Proof.
  revert m. induction l as [|tm l IH]; intros m; simpl; [reflexivity|].
  rewrite IH. rewrite lookup_delete. clear IH.
  change (list_fmap (Z * string)%type string snd l) with (l.*2).
  destruct (decide (k ∈ tm.2 :: l.*2)) as [Hin'|Hin'].
  - apply elem_of_cons in Hin' as [Heq|Hin].
    + destruct (decide (k ∈ l.*2)); [reflexivity|].
      by rewrite decide_True.
    + by rewrite decide_True.
  - rewrite decide_False by (intros ?; apply Hin'; by apply list_elem_of_further).
    rewrite decide_False; [reflexivity|].
    intros Heq. apply Hin'. rewrite Heq. apply list_elem_of_here.
Qed.

Lemma get_elapse (t : Z) (s : State) (k : string) :
  get k (elapse t s)
    = if decide (k ∈ (filter (λ tm, due t tm = true) (timers s)).*2) then None
      else get k s.
Proof.
  unfold get, elapse. simpl. rewrite purchases_run_timers. apply lookup_deleted_all.
Qed.

(** Right after the put, the entry is there. *)
Lemma get_put (p : Purchase) (s : State) : get (identity p) (put p s) = Some p.
Proof. unfold get, put. simpl. apply lookup_insert_eq. Qed.

(** A live call of [processPurchase] caches the event under its identity
    before it does anything else. *)
Lemma processPurchase_caches env (p : Purchase) (bg : bool) (s : State) :
  active_iap_events_processor s = Some (id s) →
  get (identity p) (processPurchase env p bg s).1 = Some p.
Proof.
  intros Hlive. unfold processPurchase. rewrite (stale_false _ Hlive). simpl.
  destruct (decide _); unfold get; simpl; apply lookup_insert_eq.
Qed.

(** A put that finds no timer pending for its identity is a hit for the
    whole retention window. *)
Lemma get_within_window (p : Purchase) (s : State) (t : Z) :
  (∀ tm, tm ∈ timers s → tm.2 ≠ identity p) →
  t < now s + retention →
  get (identity p) (elapse t (put p s)) = Some p.
Proof.
  intros Hfresh Ht. rewrite get_elapse, get_put.
  rewrite decide_False; [reflexivity|].
  intros Hin. apply list_elem_of_fmap in Hin as (tm & Heq & Hin).
  apply list_elem_of_filter in Hin as [Hdue Hin].
  simpl in Hin. apply elem_of_app in Hin as [Hin|Hin].
  - by apply (Hfresh tm).
  - apply list_elem_of_singleton in Hin. subst tm.
    unfold due in Hdue. simpl in Hdue. apply bool_decide_eq_true in Hdue. lia.
Qed.

(** Once the clock has passed the retention window of a put, the entry
    is gone. *)
Lemma get_after_window (p : Purchase) (s : State) (t : Z) :
  now s + retention ≤ t →
  get (identity p) (elapse t (put p s)) = None.
Proof.
  intros Ht. rewrite get_elapse. rewrite decide_True; [reflexivity|].
  apply list_elem_of_fmap. exists (now s + retention, identity p).
  split; [reflexivity|]. apply list_elem_of_filter. split.
  - unfold due. simpl. by apply bool_decide_eq_true.
  - simpl. apply elem_of_app. right. by apply list_elem_of_singleton.
Qed.

(** C5, on the code.  The same purchase is processed at time 0 and again
    at 30 s.  At 60.001 s, well inside the retention window of the second
    put (which ends at 90 s), the entry is gone: the timer set by the first
    put has deleted it. *)
Theorem cached_purchase_dropped_early :
  ∃ sys,
    run Scenario.env Scenario.twice_cached Scenario.boot = Some sys ∧
    now (shared sys) = 60001 ∧
    60001 < 30000 + retention ∧
    timers (shared sys) = [(30000 + retention, identity Scenario.tx42)] ∧
    get (identity Scenario.tx42) (shared sys) = None ∧
    get (identity Scenario.tx42)
      (elapse 60001 (put Scenario.tx42 (elapse 30000 (put Scenario.tx42 (constructor "k3x9")))))
      = None.
Proof. eexists. by vm_compute. Qed.

(** ** Finalizer calls *)

Lemma count_insert {A} (P : A → Prop) `{!∀ x, Decision (P x)}
    (l : list A) (i : nat) (x y : A) :
  l !! i = Some x →
  (length (filter P (<[i:=y]> l)) + (if decide (P x) then 1 else 0)
   = length (filter P l) + (if decide (P y) then 1 else 0))%nat.
Proof.
  intros Hi.
  rewrite insert_take_drop by (by eapply lookup_lt_Some).
  rewrite <- (take_drop_middle l i x Hi) at 3.
  rewrite !filter_app, !filter_cons, !length_app.
  destruct (decide (P x)), (decide (P y)); simpl; lia.
Qed.

Lemma finish_count_emit (t : string) (e : Effect) (s : State) :
  finish_count t (emit e s)
    = (finish_count t s + (if is_finish_of t e then 1 else 0))%nat.
Proof.
  unfold finish_count. simpl. rewrite filter_app, length_app. f_equal.
  rewrite filter_cons. destruct (is_finish_of t e); by destruct (decide _).
Qed.

Lemma finish_count_update (t : string) product st (s : State) :
  finish_count t (update product st s) = finish_count t s.
Proof. unfold update. rewrite finish_count_emit. simpl. unfold finish_count. simpl. lia. Qed.

Lemma finish_count_finishTransaction env (t : string) (p : Purchase) (s : State) :
  finish_count t (finishTransaction env p s)
    = (finish_count t s + (if decide (transactionId p = Some t) then 1 else 0))%nat.
Proof.
  unfold finishTransaction. rewrite finish_count_emit. simpl.
  by destruct (decide _); [rewrite bool_decide_eq_true_2|rewrite bool_decide_eq_false_2].
Qed.

Lemma finish_count_processPurchase env (t : string) p bg (s : State) :
  finish_count t (processPurchase env p bg s).1 = finish_count t s.
Proof.
  unfold processPurchase. destruct (stale s); [reflexivity|].
  simpl. destruct (decide _); [reflexivity|].
  simpl. rewrite finish_count_emit, finish_count_update. simpl.
  unfold finish_count. simpl. lia.
Qed.


Ltac budget :=
  rewrite ?finish_count_finishTransaction, ?finish_count_update, ?finish_count_emit;
  unfold finish_count; simpl;
  repeat case_decide; try lia; try (exfalso; intuition congruence).

Lemma resume_budget env (t : string) p bg c w (s s' : State) c' :
  resume env p bg c w s = Some (s', c') →
  (finish_count t s' + (if decide (transactionId p = Some t ∧ c' = AwaitValidate) then 1 else 0)
   ≤ finish_count t s + (if decide (transactionId p = Some t ∧ c = AwaitValidate) then 1 else 0))%nat.
Proof.
  intros H. unfold resume, completed, catch_error, reportError in H.
  destruct c, w as [|[v|e]|[u|e]]; simpl in H; try discriminate.
  - destruct (decide _); simplify_eq; budget.
  - destruct v; simpl in H.
    + destruct (getType env (productId p)); simplify_eq; simpl; budget.
    + simplify_eq. budget.
  - destruct bg; simplify_eq; budget.
  - simplify_eq. budget.
  - simplify_eq. budget.
  - simplify_eq. simpl. budget.
  - simplify_eq. simpl. budget.
Qed.

Lemma trace_run_timers (l : list (Z * string)) (s : State) :
  trace (foldl run_timer s l) = trace s.
Proof. revert s. induction l as [|tm l IH]; intros s; [reflexivity|]. simpl. by rewrite IH. Qed.

Lemma step_budget env (t : string) (a : Action) (sys sys' : System) :
  step env a sys = Some sys' →
  (finish_budget t sys' ≤ finish_budget t sys + (if is_call_of t a then 1 else 0))%nat.
Proof.
  unfold finish_budget. destruct a as [p bg|i w|tk|other]; simpl; intros H.
  - destruct (processPurchase env p bg (shared sys)) as [s c] eqn:Hp.
    simplify_eq. simpl.
    pose proof (finish_count_processPurchase env t p bg (shared sys)) as Hc.
    rewrite Hp in Hc. simpl in Hc. rewrite Hc.
    rewrite filter_app, length_app, filter_cons. unfold awaits_validation at 2. simpl.
    case_decide; case_bool_decide; simpl; try lia.
    exfalso. tauto.
  - destruct (tasks sys !! i) as [k|] eqn:Hk; [|discriminate]. simpl in H.
    destruct (resume env (purchase k) (inBackground k) (pc k) w (shared sys))
      as [[s c]|] eqn:Hr; [|discriminate].
    simpl in H. simplify_eq. simpl.
    pose proof (resume_budget env t _ _ _ _ _ _ _ Hr) as Hb.
    pose proof (count_insert (awaits_validation t) (tasks sys) i k
                  (mkTask (purchase k) (inBackground k) c) Hk) as Hc.
    unfold awaits_validation in Hc at 2 4. simpl in Hc.
    repeat case_decide; try lia; exfalso; intuition congruence.
  - simplify_eq. simpl. unfold finish_count. simpl. rewrite trace_run_timers. lia.
  - simplify_eq. simpl. unfold finish_count. simpl. lia.
Qed.

Lemma run_budget env (t : string) (acts : list Action) : ∀ (sys sys' : System),
  run env acts sys = Some sys' →
  (finish_budget t sys' ≤ finish_budget t sys + call_count t acts)%nat.
Proof.
  induction acts as [|a acts IH]; intros sys sys' H; simpl in H.
  - simplify_eq. unfold call_count. simpl. lia.
  - destruct (step env a sys) as [sys1|] eqn:Hs; [|discriminate]. simpl in H.
    apply IH in H. apply (step_budget env t) in Hs.
    unfold call_count in *. rewrite filter_cons.
    destruct (is_call_of t a); case_decide; simpl; try lia; congruence.
Qed.

(** C2, as stated, fails: an event for transaction "tx42" is processed
    until its status is Completed; the same event is delivered again and
    processed; the finalizer has then been called twice for "tx42". *)
Lemma redelivery_finalizes_twice :
  ∃ mid sys,
    run Scenario.env (take 3 Scenario.redelivery) Scenario.boot = Some mid ∧
    getStatus "p1" (shared mid) = Completed ∧
    run Scenario.env Scenario.redelivery Scenario.boot = Some sys ∧
    ¬ (finish_count "tx42" (shared sys) ≤ 1)%nat.
Proof.
  eexists _, _. split; [by vm_compute|]. split; [by vm_compute|].
  split; [by vm_compute|]. vm_compute. lia.
Qed.

(** C2, amended.  Under any interleaving of calls, settlements, clock
    advances and hot reloads, the finalizer is invoked for a transaction
    identifier at most once per call of [processPurchase] with an event
    carrying that identifier. *)
Theorem finalizer_once_per_call
    (env : Collaborators) (t : string) (acts : list Action) (s : State) (sys : System) :
  run env acts (mkSystem s []) = Some sys →
  (finish_count t (shared sys) ≤ finish_count t s + call_count t acts)%nat.
Proof.
  intros Hrun. apply (run_budget env t) in Hrun.
  unfold finish_budget in Hrun. simpl in Hrun. lia.
Qed.

Lemma finalizer_once_per_call_witness :
  ∃ sys,
    run Scenario.env Scenario.redelivery (mkSystem (constructor "k3x9") []) = Some sys ∧
    (finish_count "tx42" (shared sys) ≤ 0 + 2)%nat.
Proof.
  destruct (run Scenario.env Scenario.redelivery (mkSystem (constructor "k3x9") []))
    as [sys|] eqn:Hrun; [|by vm_compute in Hrun].
  exists sys. split; [reflexivity|].
  exact (finalizer_once_per_call Scenario.env "tx42" Scenario.redelivery
           (constructor "k3x9") sys Hrun).
Defined.

(** ** Concurrent validations *)

(** A call that waits for a peer never calls the validation service: a
    wake-up leaves the state as it is and ends the call or keeps it
    waiting. *)
Lemma waiting_call_never_validates env p bg w (s s' : State) c' :
  resume env p bg AwaitTimer w s = Some (s', c') →
  s' = s ∧ (c' = AwaitTimer ∨ ∃ o, c' = Done o).
Proof.
  destruct w; simpl; try discriminate.
  destruct (decide _); intros; simplify_eq; eauto.
Qed.

(** C3, on the code.  Three purchases of product "p1".  The second arrives
    while the first is being finalized (status Finishing) and starts its
    validation; the first then completes and overwrites the status with
    Completed; the third arrives, reads Completed and starts its own
    validation while that of the second is still in flight. *)
Theorem validations_overlap :
  ∃ sys,
    run Scenario.env Scenario.overlap Scenario.boot = Some sys ∧
    validating_now "p1" sys
      = [mkTask Scenario.tx43 true AwaitValidate; mkTask Scenario.tx44 true AwaitValidate].
Proof. eexists. by vm_compute. Qed.

(** ** Coalescing queue *)

Section Coalescing.
Import Debounced.
Context {T : Type}.
Implicit Types (q : Debounced.t T) (k : string) (x y : T).

Lemma filter_key_replace_payload k x (l : list (string * (Z * T))) :
  filter (has_key k) (replace_payload k x <$> l)
    = replace_payload k x <$> filter (has_key k) l.
Proof.
  induction l as [|e l IH]; [reflexivity|].
  rewrite fmap_cons, (filter_cons _ e), filter_cons.
  destruct (decide (has_key k e)) as [He|He].
  - rewrite decide_True, fmap_cons, IH; [reflexivity|].
    unfold replace_payload. by rewrite decide_True.
  - rewrite decide_False, IH; [reflexivity|].
    unfold replace_payload. by rewrite decide_False.
Qed.

Lemma filter_key_handled k (l : list (string * (Z * T))) :
  filter (λ h : string * T, h.1 = k) ((λ e, (e.1, e.2.2)) <$> l)
    = (λ e, (e.1, e.2.2)) <$> filter (has_key k) l.
Proof.
  induction l as [|e l IH]; [reflexivity|].
  rewrite fmap_cons, !filter_cons, IH. unfold has_key. simpl.
  by destruct (decide (e.1 = k)).
Qed.

Lemma filter_key_comm k (P : string * (Z * T) → Prop) `{!∀ e, Decision (P e)}
    (l : list (string * (Z * T))) :
  filter (has_key k) (filter P l) = filter P (filter (has_key k) l).
Proof.
  induction l as [|e l IH]; [reflexivity|].
  rewrite !filter_cons.
  destruct (decide (P e)), (decide (has_key k e));
    rewrite ?filter_cons, ?decide_True, ?decide_False by done; by rewrite IH.
Qed.

Lemma default_last_cons y x (l : list T) :
  default y (last (x :: l)) = default x (last l).
Proof.
  destruct l as [|z l]; [reflexivity|].
  rewrite last_cons_cons.
  by destruct (last_is_Some (z :: l)) as [_ [? ->]].
Qed.

(** [add] never runs the handler. *)
Lemma add_handled x q : handled (add x q) = handled q.
Proof. unfold add. by destruct (filter _ _). Qed.

Lemma add_extractKey x q : extractKey (add x q) = extractKey q.
Proof. unfold add. by destruct (filter _ _). Qed.

Lemma add_first k x q :
  extractKey q x = k →
  filter (has_key k) (scheduled q) = [] →
  filter (has_key k) (scheduled (add x q)) = [(k, (clock q + delay q, x))].
Proof.
  intros Hk Hnone. unfold add. rewrite Hk, Hnone. simpl.
  rewrite filter_app, Hnone, filter_cons. simpl.
  by rewrite decide_True.
Qed.

Lemma add_again k x y q (d : Z) :
  extractKey q x = k →
  filter (has_key k) (scheduled q) = [(k, (d, y))] →
  filter (has_key k) (scheduled (add x q)) = [(k, (d, x))].
Proof.
  intros Hk Hone. unfold add. rewrite Hk, Hone. simpl.
  rewrite filter_key_replace_payload, Hone. simpl.
  unfold replace_payload. by rewrite decide_True.
Qed.

Lemma advance_early k y q (d now : Z) :
  filter (has_key k) (scheduled q) = [(k, (d, y))] →
  now < d →
  filter (has_key k) (scheduled (advance now q)) = [(k, (d, y))] ∧
  handled_for k (advance now q) = handled_for k q.
Proof.
  intros Hone Hlt. unfold handled_for, advance. simpl. split.
  - rewrite filter_key_comm, Hone, filter_cons.
    rewrite decide_True; [reflexivity|]. unfold is_due. simpl. lia.
  - rewrite filter_app, fmap_app, filter_key_handled, filter_key_comm, Hone.
    rewrite filter_cons, decide_False; [by rewrite app_nil_r|].
    unfold is_due. simpl. lia.
Qed.

Lemma advance_late k y q (d now : Z) :
  filter (has_key k) (scheduled q) = [(k, (d, y))] →
  d ≤ now →
  filter (has_key k) (scheduled (advance now q)) = [] ∧
  handled_for k (advance now q) = handled_for k q ++ [y].
Proof.
  intros Hone Hle. unfold handled_for, advance. simpl. split.
  - rewrite filter_key_comm, Hone, filter_cons.
    rewrite decide_False; [reflexivity|]. unfold is_due. simpl. tauto.
  - rewrite filter_app, fmap_app, filter_key_handled, filter_key_comm, Hone.
    rewrite filter_cons, decide_True; [reflexivity|].
    unfold is_due. simpl. lia.
Qed.

Lemma advance_idle k q (now : Z) :
  filter (has_key k) (scheduled q) = [] →
  filter (has_key k) (scheduled (advance now q)) = [] ∧
  handled_for k (advance now q) = handled_for k q.
Proof.
  intros Hnone. unfold handled_for, advance. simpl. split.
  - by rewrite filter_key_comm, Hnone.
  - rewrite filter_app, fmap_app, filter_key_handled, filter_key_comm, Hnone.
    by rewrite app_nil_r.
Qed.

(** A burst that follows a pending event for [k]: the one run stays
    scheduled for the same time, with the newest payload. *)
Lemma burst_pending k (burst : list (Z * T)) : ∀ q y (d : Z),
  filter (has_key k) (scheduled q) = [(k, (d, y))] →
  Forall (λ a, extractKey q a.2 = k ∧ a.1 < d) burst →
  filter (has_key k) (scheduled (foldl submit q burst))
    = [(k, (d, default y (last burst.*2)))] ∧
  handled_for k (foldl submit q burst) = handled_for k q.
Proof.
  induction burst as [|[t x] burst IH]; intros q y d Hone Hall; [done|].
  apply Forall_cons in Hall as [[Hk Ht] Hall]. simpl in Hk, Ht.
  destruct (advance_early k y q d t Hone Ht) as [Hsch Hhan].
  pose proof (add_again k x y (advance t q) d Hk Hsch) as Hsch'.
  change (foldl submit q ((t, x) :: burst))
    with (foldl submit (add x (advance t q)) burst).
  destruct (IH (add x (advance t q)) x d Hsch') as [IHs IHh].
  { eapply Forall_impl; [exact Hall|]. intros a [? ?].
    by rewrite add_extractKey. }
  split.
  - rewrite IHs. do 3 f_equal. symmetry. apply default_last_cons.
  - rewrite IHh, <- Hhan. unfold handled_for. by rewrite add_handled.
Qed.

(** C4.  A burst of N >= 1 events with the same key [k] (a first event
    [x0], then [burst]), all submitted before the coalescing delay of
    the first has elapsed: no submission runs the handler; once the delay
    has elapsed the handler has run exactly once for [k], on the payload
    submitted last; it does not run again for [k] later on.  [add] only
    records the event: it never runs the handler itself. *)
Theorem coalescing_burst q k x0 (burst : list (Z * T)) (fire later : Z) :
  filter (has_key k) (scheduled q) = [] →
  extractKey q x0 = k →
  Forall (λ a, extractKey q a.2 = k ∧ a.1 < clock q + delay q) burst →
  clock q + delay q ≤ fire →
  handled_for k (foldl submit (add x0 q) burst) = handled_for k q ∧
  handled_for k (advance fire (foldl submit (add x0 q) burst))
    = handled_for k q ++ [default x0 (last burst.*2)] ∧
  handled_for k (advance later (advance fire (foldl submit (add x0 q) burst)))
    = handled_for k q ++ [default x0 (last burst.*2)] ∧
  (∀ x q', handled (add x q') = handled q').
Proof.
  intros Hnone Hk Hall Hfire.
  pose proof (add_first k x0 q Hk Hnone) as Hfirst.
  destruct (burst_pending k burst (add x0 q) x0 (clock q + delay q) Hfirst)
    as [Hsch Hhan].
  { eapply Forall_impl; [exact Hall|]. intros a [? ?]. by rewrite add_extractKey. }
  assert (handled_for k (add x0 q) = handled_for k q) as Hadd
    by (unfold handled_for; by rewrite add_handled).
  destruct (advance_late k _ _ _ fire Hsch Hfire) as [Hgone Hrun].
  destruct (advance_idle k _ later Hgone) as [_ Hlater].
  split; [by rewrite Hhan|].
  split; [by rewrite Hrun, Hhan, Hadd|].
  split; [by rewrite Hlater, Hrun, Hhan, Hadd|].
  intros x q'. apply add_handled.
Qed.
End Coalescing.

Lemma coalescing_burst_witness :
  Debounced.handled_for "tx42"
    (Debounced.advance 300
       (foldl Debounced.submit (Debounced.add Scenario.tx42 (purchaseProcessor 300))
          [(10, Scenario.tx42_again); (200, Scenario.tx42_latest)]))
    = [Scenario.tx42_latest].
Proof.
  destruct (coalescing_burst (purchaseProcessor 300) "tx42" Scenario.tx42
              [(10, Scenario.tx42_again); (200, Scenario.tx42_latest)] 300 400)
    as (_ & Hrun & _); [reflexivity | reflexivity | | by vm_compute | exact Hrun].
  repeat constructor; by vm_compute.
Defined.

(** C10.  Purchase events without a transaction identifier are cached
    under their product identifier, and their dedup key is the empty
    string.  Two such events, whatever their products, therefore share a
    key: submitted within one coalescing window they lead to a single
    processing call, for the event submitted last. *)
Theorem missing_transaction_id_coalesces
    (d : Z) (p1 p2 : Purchase) (t2 fire : Z) :
  transactionId p1 = None →
  transactionId p2 = None →
  t2 < d →
  d ≤ fire →
  identity p1 = productId p1 ∧ identity p2 = productId p2 ∧
  (∀ env bg s,
     active_iap_events_processor s = Some (id s) →
     get (productId p1) (processPurchase env p1 bg s).1 = Some p1 ∧
     get (productId p2) (processPurchase env p2 bg s).1 = Some p2) ∧
  purchaseKey p1 = "" ∧ purchaseKey p2 = "" ∧
  processing_calls
    (Debounced.advance fire
       (Debounced.submit (Debounced.add p1 (purchaseProcessor d)) (t2, p2)))
    = [Call p2 true].
Proof.
  intros H1 H2 Ht Hfire.
  assert (identity p1 = productId p1) as Hid1 by (unfold identity; by rewrite H1).
  assert (purchaseKey p1 = "") as Hk1 by (unfold purchaseKey; by rewrite H1).
  assert (purchaseKey p2 = "") as Hk2 by (unfold purchaseKey; by rewrite H2).
  assert (identity p2 = productId p2) as Hid2 by (unfold identity; by rewrite H2).
  split; [exact Hid1|]. split; [exact Hid2|].
  split.
  { intros env bg s Hlive. rewrite <- Hid1, <- Hid2.
    split; by apply processPurchase_caches. }
  split; [exact Hk1|]. split; [exact Hk2|].
  unfold processing_calls, Debounced.submit, Debounced.advance, Debounced.add,
    purchaseProcessor, Debounced.create. simpl. rewrite Hk1. simpl.
  rewrite !filter_cons, !filter_nil.
  rewrite (decide_True (P := ¬ Debounced.is_due t2 _))
    by (unfold Debounced.is_due; simpl; lia).
  simpl. rewrite Hk2. simpl.
  rewrite !filter_cons, !filter_nil.
  rewrite (decide_True (P := Debounced.is_due fire _))
    by (unfold Debounced.is_due; simpl; lia).
  rewrite (decide_False (P := Debounced.is_due t2 _))
    by (unfold Debounced.is_due; simpl; lia).
  reflexivity.
Qed.

Lemma missing_transaction_id_coalesces_witness :
  identity Scenario.coins = "coins" ∧
  purchaseKey Scenario.coins = purchaseKey Scenario.gems ∧
  processing_calls
    (Debounced.advance 300
       (Debounced.submit (Debounced.add Scenario.coins (purchaseProcessor 300))
          (120, Scenario.gems)))
    = [Call Scenario.gems true].
Proof.
  destruct (missing_transaction_id_coalesces 300 Scenario.coins Scenario.gems 120 300)
    as (Hid & _ & _ & Hk1 & Hk2 & Hcalls); [reflexivity | reflexivity | lia | lia |].
  split; [exact Hid|]. split; [by rewrite Hk1, Hk2 | exact Hcalls].
Defined.

(* ===================================================================== *)
(** * Further properties                                                  *)
(* ===================================================================== *)

(** ** Listener registry *)

(** X1.  [addListeners] is idempotent: on a processor that is already
    started a second call subscribes nothing and only writes its log
    line. *)
Theorem addListeners_idempotent (s : State) :
  addListeners (addListeners s) = log LInfo "addListeners" (addListeners s).
Proof. destruct s as [act i [hu|] e pur t tm ul el nh pend tr lg]; reflexivity. Qed.

Lemma filter_fresh (l : list nat) (n m : nat) :
  Forall (λ h, (h < n)%nat) l → (n ≤ m)%nat → filter (λ k, k ≠ m) l = l.
Proof.
  intros Hall Hle. induction Hall as [|h l Hh _ IH]; [reflexivity|].
  rewrite filter_cons, decide_True by lia. by rewrite IH.
Qed.

(** X2.  Start then stop is a round trip on the platform emitter.  On a
    processor that is not started, with an emitter whose handles are older
    than the next one it hands out, [addListeners] subscribes one fresh
    handle on each channel and keeps the other subscribers;
    [removeListeners] then leaves both channels exactly as they were
    before, and the processor not started. *)
Theorem listeners_round_trip (s : State) :
  onPurchaseUpdate s = None →
  handles_fresh s →
  onPurchaseUpdate (addListeners s) = Some (nextHandle s) ∧
  onPurchaseError (addListeners s) = Some (S (nextHandle s)) ∧
  updateListeners (addListeners s) = updateListeners s ++ [nextHandle s] ∧
  errorListeners (addListeners s) = errorListeners s ++ [S (nextHandle s)] ∧
  handles_fresh (addListeners s) ∧
  updateListeners (removeListeners (addListeners s)) = updateListeners s ∧
  errorListeners (removeListeners (addListeners s)) = errorListeners s ∧
  onPurchaseUpdate (removeListeners (addListeners s)) = None ∧
  onPurchaseError (removeListeners (addListeners s)) = None.
Proof.
  destruct s as [act i u e pur t tm ul el nh pend tr lg]. simpl.
  intros -> Hfresh. unfold handles_fresh in *. simpl in *.
  apply Forall_app in Hfresh as [Hul Hel].
  do 4 (split; [reflexivity|]).
  split.
  { rewrite !Forall_app, !Forall_singleton. repeat split; try lia.
    - eapply Forall_impl; [exact Hul|]. simpl. lia.
    - eapply Forall_impl; [exact Hel|]. simpl. lia. }
  unfold removeListeners, addListeners. simpl.
  split; [|split; [|done]].
  - change (filter (λ k : nat, k ≠ S nh) (filter (λ k : nat, k ≠ nh) (ul ++ [nh])) = ul).
    rewrite filter_app, filter_cons, decide_False, filter_nil, app_nil_r by tauto.
    rewrite (filter_fresh ul nh nh Hul) by lia.
    apply (filter_fresh ul nh (S nh) Hul). lia.
  - change (filter (λ k : nat, k ≠ S nh) (filter (λ k : nat, k ≠ nh) (el ++ [S nh])) = el).
    rewrite filter_app, filter_cons, filter_nil.
    rewrite decide_True by lia. rewrite (filter_fresh el nh nh Hel) by lia.
    rewrite filter_app, filter_cons, decide_False, filter_nil, app_nil_r by tauto.
    apply (filter_fresh el nh (S nh) Hel). lia.
Qed.

Lemma listeners_round_trip_witness :
  updateListeners (addListeners Sample.shared_emitter) = [0; 2]%nat ∧
  errorListeners (addListeners Sample.shared_emitter) = [1; 3]%nat ∧
  updateListeners (removeListeners (addListeners Sample.shared_emitter)) = [0%nat] ∧
  errorListeners (removeListeners (addListeners Sample.shared_emitter)) = [1%nat].
Proof.
  destruct (listeners_round_trip Sample.shared_emitter)
    as (_ & _ & Hu & He & _ & Hu' & He' & _); [reflexivity | |].
  - unfold handles_fresh. simpl. repeat constructor.
  - by rewrite Hu, He, Hu', He'.
Defined.

(** ** Purchase cache, under interleaving *)

Lemma cache_frame_resume env p bg c w (s s' : State) c' :
  resume env p bg c w s = Some (s', c') →
  purchases s' = purchases s ∧ timers s' = timers s ∧ now s' = now s.
Proof.
  intros H. unfold resume, completed, catch_error, reportError in H.
  destruct c, w as [|[v|e]|[u|e]]; simpl in H; try discriminate.
  - by destruct (decide _); simplify_eq.
  - destruct v; simpl in H; [|by simplify_eq].
    by destruct (getType env (productId p)); simplify_eq.
  - by destruct bg; simplify_eq.
  - by simplify_eq.
  - by simplify_eq.
  - by simplify_eq.
  - by simplify_eq.
Qed.

Lemma cache_frame_processPurchase env p bg (s : State) :
  let s' := (processPurchase env p bg s).1 in
  (purchases s' = purchases s ∧ timers s' = timers s ∧ now s' = now s) ∨
  (active_iap_events_processor s = Some (id s) ∧
   purchases s' = purchases (put p s) ∧ timers s' = timers (put p s) ∧
   now s' = now (put p s)).
Proof.
  unfold processPurchase, stale. case_bool_decide as Hst; simpl; [by left|].
  right. split.
  { destruct (decide (active_iap_events_processor s = Some (id s))); [done|].
    by destruct Hst. }
  by destruct (decide _).
Qed.

Lemma get_step_quiet env (k : string) (d : Z) (x : Purchase) (a : Action) (sys sys' : System) :
  quiet k d a →
  step env a sys = Some sys' →
  get k (shared sys) = Some x →
  (∀ tm, tm ∈ timers (shared sys) → tm.2 = k → d ≤ tm.1) →
  get k (shared sys') = Some x ∧
  (∀ tm, tm ∈ timers (shared sys') → tm.2 = k → d ≤ tm.1).
Proof.
  intros Hq Hstep Hget Htm. destruct a as [q bg|i w|t|other]; simpl in *.
  - destruct (processPurchase env q bg (shared sys)) as [s c] eqn:Hp.
    simplify_eq. simpl.
    pose proof (cache_frame_processPurchase env q bg (shared sys)) as Hf.
    rewrite Hp in Hf. simpl in Hf. unfold get in *.
    destruct Hf as [(-> & -> & _)|(_ & -> & -> & _)]; [done|].
    simpl. rewrite lookup_insert_ne by done. split; [done|].
    intros tm Hin Hk. apply elem_of_app in Hin as [Hin|Hin]; [by apply Htm|].
    apply list_elem_of_singleton in Hin. subst tm. simpl in Hk. congruence.
  - destruct (tasks sys !! i) as [task|]; [|discriminate]. simpl in Hstep.
    destruct (resume _ _ _ _ _ _) as [[s c]|] eqn:Hr; [|discriminate].
    simpl in Hstep. simplify_eq. simpl.
    apply cache_frame_resume in Hr as (Hpur & Htim & _).
    unfold get in *. by rewrite Hpur, Htim.
  - simplify_eq. simpl. split.
    + rewrite get_elapse, decide_False; [done|].
      intros Hin. apply list_elem_of_fmap in Hin as (tm & Hk & Hin).
      apply list_elem_of_filter in Hin as [Hdue Hin].
      unfold due in Hdue. apply bool_decide_eq_true in Hdue.
      specialize (Htm tm Hin (eq_sym Hk)). lia.
    + intros tm Hin Hk. apply list_elem_of_filter in Hin as [_ Hin]. by apply Htm.
  - simplify_eq. by simpl.
Qed.

(** X3.  A purchase processed by a live call, when no earlier deletion
    timer is pending for its identity, stays cached for the whole
    retention window: whatever else happens before the clock reaches
    [now + 60000] (calls for events of other identities, settlements, hot
    reloads, clock advances), a lookup of its identity finds it. *)
Theorem cached_for_the_window
    (env : Collaborators) (p : Purchase) (bg : bool) (s : State)
    (acts : list Action) (sys : System) :
  active_iap_events_processor s = Some (id s) →
  (∀ tm, tm ∈ timers s → tm.2 ≠ identity p) →
  Forall (quiet (identity p) (now s + retention)) acts →
  run env (Call p bg :: acts) (mkSystem s []) = Some sys →
  get (identity p) (shared sys) = Some p.
Proof.
  intros Hlive Hfresh Hq Hrun. simpl in Hrun.
  destruct (processPurchase env p bg s) as [s1 c1] eqn:Hp. simpl in Hrun.
  pose proof (processPurchase_caches env p bg s Hlive) as Hget.
  pose proof (cache_frame_processPurchase env p bg s) as Hf.
  rewrite Hp in Hget, Hf. simpl in Hget, Hf.
  assert (∀ tm, tm ∈ timers s1 → tm.2 = identity p → now s + retention ≤ tm.1) as Htm.
  { destruct Hf as [(_ & -> & _)|(_ & _ & -> & _)].
    - intros tm Hin Hk. by destruct (Hfresh tm Hin).
    - simpl. intros tm Hin Hk. apply elem_of_app in Hin as [Hin|Hin].
      + by destruct (Hfresh tm Hin).
      + apply list_elem_of_singleton in Hin. subst tm. simpl. lia. }
  clear Hp Hf Hfresh Hlive.
  remember (mkSystem s1 [mkTask p bg c1]) as sys1 eqn:Hsys1.
  assert (get (identity p) (shared sys1) = Some p) as Hget1 by by subst sys1.
  assert (∀ tm, tm ∈ timers (shared sys1) → tm.2 = identity p →
                now s + retention ≤ tm.1) as Htm1 by by subst sys1.
  clear Hsys1 Hget Htm. revert sys1 Hrun Hget1 Htm1.
  induction Hq as [|a acts Ha _ IH]; intros sys1 Hrun Hget1 Htm1; simpl in Hrun.
  - by simplify_eq.
  - destruct (step env a sys1) as [sys2|] eqn:Hstep; [|discriminate].
    simpl in Hrun.
    destruct (get_step_quiet env _ _ _ _ _ _ Ha Hstep Hget1 Htm1) as [Hget2 Htm2].
    by apply (IH sys2).
Qed.

Lemma cached_for_the_window_witness :
  ∃ sys,
    run Scenario.env
      [Call Scenario.tx42 true; Call Scenario.tx43 false; Tick 59999;
       Settle 0 (ValidateSettled (Resolved true))]
      Scenario.boot = Some sys ∧
    get "tx42" (shared sys) = Some Scenario.tx42.
Proof.
  destruct (run Scenario.env
      [Call Scenario.tx42 true; Call Scenario.tx43 false; Tick 59999;
       Settle 0 (ValidateSettled (Resolved true))] Scenario.boot)
    as [sys|] eqn:Hrun; [|by vm_compute in Hrun].
  exists sys. split; [reflexivity|].
  apply (cached_for_the_window Scenario.env Scenario.tx42 true (constructor "k3x9")
           [Call Scenario.tx43 false; Tick 59999;
            Settle 0 (ValidateSettled (Resolved true))] sys).
  - reflexivity.
  - intros tm Hin. by apply elem_of_nil in Hin.
  - repeat constructor; by vm_compute.
  - exact Hrun.
Defined.

Lemma covered_ext (s s' : State) :
  purchases s' = purchases s → timers s' = timers s → now s' = now s →
  covered s → covered s'.
Proof. unfold covered. intros -> -> ->. done. Qed.

Lemma covered_put (p : Purchase) (s : State) : covered s → covered (put p s).
Proof.
  intros Hc k Hk. unfold put in *. simpl in *.
  destruct (decide (k = identity p)) as [->|Hne].
  - exists (now s + retention). split; [|lia].
    apply elem_of_app. right. by apply list_elem_of_singleton.
  - rewrite lookup_insert_ne in Hk by done.
    destruct (Hc k Hk) as (d & Hin & Hd). exists d. split; [|done].
    apply elem_of_app. by left.
Qed.

Lemma covered_elapse (t : Z) (s : State) : covered s → covered (elapse t s).
Proof.
  intros Hc k Hk.
  change (purchases (elapse t s) !! k) with (get k (elapse t s)) in Hk.
  rewrite get_elapse in Hk. destruct (decide _) as [|Hnot]; [by destruct Hk|].
  destruct (Hc k Hk) as (d & Hin & Hd). exists d. simpl. split; [|lia].
  apply list_elem_of_filter. split; [|done].
  destruct (due t (d, k)) eqn:Hdue; [|done].
  exfalso. apply Hnot. apply list_elem_of_fmap. exists (d, k).
  split; [done|]. by apply list_elem_of_filter.
Qed.

Lemma covered_step env (a : Action) (sys sys' : System) :
  step env a sys = Some sys' → covered (shared sys) → covered (shared sys').
Proof.
  intros Hstep Hc. destruct a as [q bg|i w|t|other]; simpl in *.
  - destruct (processPurchase env q bg (shared sys)) as [s c] eqn:Hp.
    simplify_eq. simpl.
    pose proof (cache_frame_processPurchase env q bg (shared sys)) as Hf.
    rewrite Hp in Hf. simpl in Hf.
    destruct Hf as [(H1 & H2 & H3)|(_ & H1 & H2 & H3)].
    + by apply (covered_ext (shared sys)).
    + apply (covered_ext (put q (shared sys))); [done..|]. by apply covered_put.
  - destruct (tasks sys !! i) as [task|]; [|discriminate]. simpl in Hstep.
    destruct (resume _ _ _ _ _ _) as [[s c]|] eqn:Hr; [|discriminate].
    simpl in Hstep. simplify_eq. simpl.
    apply cache_frame_resume in Hr as (H1 & H2 & H3).
    by apply (covered_ext (shared sys)).
  - simplify_eq. simpl. by apply covered_elapse.
  - simplify_eq. by simpl.
Qed.

Lemma covered_run env (acts : list Action) : ∀ (sys sys' : System),
  run env acts sys = Some sys' → covered (shared sys) → covered (shared sys').
Proof.
  induction acts as [|a acts IH]; intros sys sys' Hrun Hc; simpl in Hrun.
  - by simplify_eq.
  - destruct (step env a sys) as [sys1|] eqn:Hstep; [|discriminate].
    simpl in Hrun. eapply IH; [exact Hrun|]. by eapply covered_step.
Qed.

(** X4.  No cache entry outlives the retention delay.  Start from an
    empty cache and let anything happen: calls, settlements, clock
    advances, hot reloads.  Every entry in the cache then has a deletion
    timer pending that is due at most 60000 ms from now, and once the clock
    has advanced by 60000 ms without further calls the cache is empty. *)
Theorem cache_never_outlives_retention
    (env : Collaborators) (s : State) (ts : list Task)
    (acts : list Action) (sys : System) (t : Z) :
  purchases s = ∅ →
  run env acts (mkSystem s ts) = Some sys →
  now (shared sys) + retention ≤ t →
  covered (shared sys) ∧ purchases (elapse t (shared sys)) = ∅.
Proof.
  intros Hempty Hrun Ht.
  assert (covered (shared sys)) as Hc.
  { eapply covered_run; [exact Hrun|]. simpl. intros k Hk.
    rewrite Hempty, lookup_empty in Hk. by destruct Hk. }
  split; [exact Hc|]. apply map_empty. intros k.
  change (get k (elapse t (shared sys)) = None). rewrite get_elapse.
  destruct (decide _) as [|Hnot]; [done|].
  destruct (purchases (shared sys) !! k) as [x|] eqn:Hk; [|done].
  destruct (Hc k ltac:(by rewrite Hk)) as (d & Hin & Hd).
  exfalso. apply Hnot. apply list_elem_of_fmap. exists (d, k).
  split; [done|]. apply list_elem_of_filter. split; [|done].
  unfold due. apply bool_decide_eq_true. simpl. lia.
Qed.

Lemma cache_never_outlives_retention_witness :
  ∃ sys,
    run Scenario.env Sample.busy Scenario.boot = Some sys ∧
    now (shared sys) = 30000 ∧
    purchases (elapse 90000 (shared sys)) = ∅.
Proof.
  destruct (run Scenario.env Sample.busy Scenario.boot) as [sys|] eqn:Hrun;
    [|by vm_compute in Hrun].
  exists sys. split; [reflexivity|].
  assert (now (shared sys) = 30000) as Hnow.
  { vm_compute in Hrun. by injection Hrun as <-. }
  split; [exact Hnow|].
  apply (cache_never_outlives_retention Scenario.env (constructor "k3x9") []
           Sample.busy sys 90000); [reflexivity | exact Hrun |].
  rewrite Hnow. by vm_compute.
Defined.

(** ** Footprint of the calls *)

Lemma footprint_processPurchase env p bg (s : State) :
  ∃ l, trace (processPurchase env p bg s).1 = trace s ++ l ∧
       Forall (made_by env p bg) l ∧
       (pendingPurchases (processPurchase env p bg s).1 = pendingPurchases s ∨
        ∃ st, st ≠ Idle ∧
          pendingPurchases (processPurchase env p bg s).1
            = <[productId p := st]> (pendingPurchases s)).
Proof.
  unfold processPurchase. destruct (stale s).
  { exists []. simpl. rewrite app_nil_r. auto. }
  simpl. destruct (decide _).
  - exists []. simpl. rewrite app_nil_r. auto.
  - exists [PendingUpdate (productId p) Validating; Validate p]. simpl.
    rewrite <- app_assoc. split; [done|]. split.
    + repeat constructor; done.
    + right. by exists Validating.
Qed.

Lemma footprint_resume env p bg c w (s s' : State) c' :
  resume env p bg c w s = Some (s', c') →
  ∃ l, trace s' = trace s ++ l ∧
       Forall (made_by env p bg) l ∧
       Forall (λ e, validates (λ _, true) e = false) l ∧
       (pendingPurchases s' = pendingPurchases s ∨
        ∃ st, st ≠ Idle ∧ pendingPurchases s' = <[productId p := st]> (pendingPurchases s)).
Proof.
  intros H. unfold resume, completed, catch_error, reportError in H.
  destruct c, w as [|[v|e]|[u|e]]; simpl in H; try discriminate.
  - exists []. rewrite app_nil_r. by destruct (decide _); simplify_eq; auto.
  - destruct v; simpl in H.
    + destruct (getType env (productId p)) eqn:Hty; simplify_eq; simpl.
      * exists [PendingUpdate (productId p) Completed].
        split; [done|]. split; [by repeat constructor|].
        split; [by repeat constructor|]. right. by exists Completed.
      * exists [PendingUpdate (productId p) Finishing; FinishTransaction p false].
        rewrite Hty, <- app_assoc. split; [done|].
        split; [repeat constructor; by rewrite ?Hty|].
        split; [by repeat constructor|]. right. by exists Finishing.
      * exists [PendingUpdate (productId p) Finishing; FinishTransaction p false].
        rewrite Hty, <- app_assoc. split; [done|].
        split; [repeat constructor; by rewrite ?Hty|].
        split; [by repeat constructor|]. right. by exists Finishing.
      * exists [PendingUpdate (productId p) Completed].
        split; [done|]. split; [by repeat constructor|].
        split; [by repeat constructor|]. right. by exists Completed.
    + simplify_eq. simpl.
      exists [PendingUpdate (productId p) Finishing;
              FinishTransaction p (bool_decide (getType env (productId p) = Consumable))].
      rewrite <- app_assoc. split; [done|]. split; [by repeat constructor|].
      split; [by repeat constructor|]. right. by exists Finishing.
  - destruct bg; simplify_eq; simpl.
    + exists [EmitError (toIapticError env e WARNING)]. split; [done|].
      split; [repeat constructor; eauto|]. split; [by repeat constructor|]. by left.
    + exists []. rewrite app_nil_r. auto.
  - simplify_eq. exists [PendingUpdate (productId p) Completed].
    split; [done|]. split; [by repeat constructor|].
    split; [by repeat constructor|]. right. by exists Completed.
  - simplify_eq. exists [PendingUpdate (productId p) Completed].
    split; [done|]. split; [by repeat constructor|].
    split; [by repeat constructor|]. right. by exists Completed.
  - simplify_eq. exists [PendingUpdate (productId p) Completed].
    split; [done|]. split; [by repeat constructor|].
    split; [by repeat constructor|]. right. by exists Completed.
  - simplify_eq. exists [PendingUpdate (productId p) Completed].
    split; [done|]. split; [by repeat constructor|].
    split; [by repeat constructor|]. right. by exists Completed.
Qed.

Lemma pending_run_timers (l : list (Z * string)) (s : State) :
  pendingPurchases (foldl run_timer s l) = pendingPurchases s.
Proof. revert s. induction l as [|tm l IH]; intros s; [reflexivity|]. simpl. by rewrite IH. Qed.

Lemma callers_step env (a : Action) (sys sys' : System) :
  step env a sys = Some sys' → callers sys' = callers sys ++ calls_of [a].
Proof.
  intros Hstep. unfold callers. destruct a as [q bg|i w|t|other]; simpl in *.
  - destruct (processPurchase env q bg (shared sys)) as [s c].
    simplify_eq. simpl. by rewrite fmap_app.
  - destruct (tasks sys !! i) as [task|] eqn:Hi; [|discriminate]. simpl in Hstep.
    destruct (resume _ _ _ _ _ _) as [[s c]|]; [|discriminate].
    simpl in Hstep. simplify_eq. simpl.
    rewrite app_nil_r, list_fmap_insert. simpl.
    apply list_insert_id. by rewrite list_lookup_fmap, Hi.
  - simplify_eq. simpl. by rewrite app_nil_r.
  - simplify_eq. simpl. by rewrite app_nil_r.
Qed.

Lemma footprint_step env (a : Action) (sys sys' : System) :
  step env a sys = Some sys' →
  (∃ l, trace (shared sys') = trace (shared sys) ++ l ∧
        Forall (λ e, ∃ pb, pb ∈ callers sys' ∧ made_by env pb.1 pb.2 e) l) ∧
  (pendingPurchases (shared sys') = pendingPurchases (shared sys) ∨
   ∃ pb st, pb ∈ callers sys' ∧ st ≠ Idle ∧
     pendingPurchases (shared sys')
       = <[productId pb.1 := st]> (pendingPurchases (shared sys))).
Proof.
  intros Hstep. pose proof (callers_step env a sys sys' Hstep) as Hcallers.
  destruct a as [q bg|i w|t|other]; simpl in *.
  - destruct (processPurchase env q bg (shared sys)) as [s c] eqn:Hp.
    simplify_eq. simpl in *.
    destruct (footprint_processPurchase env q bg (shared sys)) as (l & Htr & Hl & Hpend).
    rewrite Hp in Htr, Hpend. simpl in Htr, Hpend.
    assert ((q, bg) ∈ callers {| shared := s; tasks := tasks sys ++ [mkTask q bg c] |})
      as Hin by (rewrite Hcallers; apply elem_of_app; right; apply list_elem_of_here).
    split.
    + exists l. split; [done|]. eapply Forall_impl; [exact Hl|].
      intros e He. by exists (q, bg).
    + destruct Hpend as [?|(st & ? & ?)]; [by left|]. right. by exists (q, bg), st.
  - destruct (tasks sys !! i) as [task|] eqn:Hi; [|discriminate]. simpl in Hstep.
    destruct (resume _ _ _ _ _ _) as [[s c]|] eqn:Hr; [|discriminate].
    simpl in Hstep. simplify_eq. simpl in *.
    destruct (footprint_resume _ _ _ _ _ _ _ _ Hr) as (l & Htr & Hl & _ & Hpend).
    assert ((purchase task, inBackground task) ∈
              callers {| shared := s;
                         tasks := <[i:=mkTask (purchase task) (inBackground task) c]> (tasks sys) |})
      as Hin.
    { rewrite Hcallers, app_nil_r. unfold callers.
      apply list_elem_of_fmap. exists task. split; [done|].
      by eapply list_elem_of_lookup_2. }
    split.
    + exists l. split; [done|]. eapply Forall_impl; [exact Hl|].
      intros e He. by exists (purchase task, inBackground task).
    + destruct Hpend as [?|(st & ? & ?)]; [by left|]. right.
      by exists (purchase task, inBackground task), st.
  - simplify_eq. simpl. rewrite trace_run_timers, pending_run_timers.
    split; [|by left]. exists []. by rewrite app_nil_r.
  - simplify_eq. simpl. split; [|by left]. exists []. by rewrite app_nil_r.
Qed.

Lemma callers_run env (acts : list Action) : ∀ (sys sys' : System),
  run env acts sys = Some sys' → callers sys' = callers sys ++ calls_of acts.
Proof.
  induction acts as [|a acts IH]; intros sys sys' Hrun; simpl in Hrun.
  - simplify_eq. unfold calls_of. simpl. by rewrite app_nil_r.
  - destruct (step env a sys) as [sys1|] eqn:Hstep; [|discriminate]. simpl in Hrun.
    rewrite (IH _ _ Hrun), (callers_step _ _ _ _ Hstep), <- app_assoc.
    f_equal. unfold calls_of. simpl. by destruct a.
Qed.

Lemma footprint_run env (acts : list Action) : ∀ (sys sys' : System),
  run env acts sys = Some sys' →
  ∃ l, trace (shared sys') = trace (shared sys) ++ l ∧
       Forall (λ e, ∃ pb, pb ∈ callers sys' ∧ made_by env pb.1 pb.2 e) l.
Proof.
  induction acts as [|a acts IH]; intros sys sys' Hrun; simpl in Hrun.
  - simplify_eq. exists []. by rewrite app_nil_r.
  - destruct (step env a sys) as [sys1|] eqn:Hstep; [|discriminate]. simpl in Hrun.
    destruct (footprint_step _ _ _ _ Hstep) as [(l1 & Htr1 & Hl1) _].
    destruct (IH _ _ Hrun) as (l2 & Htr2 & Hl2).
    exists (l1 ++ l2). rewrite Htr2, Htr1, <- app_assoc. split; [done|].
    apply Forall_app. split; [|done].
    eapply Forall_impl; [exact Hl1|]. intros e (pb & Hin & He).
    exists pb. split; [|done].
    rewrite (callers_run _ _ _ _ Hrun). apply elem_of_app. by left.
Qed.

Lemma calls_of_elem (acts : list Action) (p : Purchase) (bg : bool) :
  (p, bg) ∈ calls_of acts ↔ Call p bg ∈ acts.
Proof.
  unfold calls_of. rewrite list_elem_of_omap. split.
  - intros (a & Hin & Ha). destruct a; simplify_eq. done.
  - intros Hin. by exists (Call p bg).
Qed.

(** X5.  Footprint of the processor.  In any run that starts with no call
    in flight, every outgoing call that is added to the record was made by
    one of the calls of [processPurchase] in the run, within the limits of
    that call: it updates the status of that call's own product, to a
    state other than Idle; or validates or finalizes that call's own
    purchase, the finalizer being told the product is consumable exactly
    when the catalog says so; or it is an [error] event of a background
    call, carrying a WARNING. *)
Theorem effects_made_by_calls
    (env : Collaborators) (s : State) (acts : list Action) (sys : System) :
  run env acts (mkSystem s []) = Some sys →
  ∃ l, trace (shared sys) = trace s ++ l ∧
       Forall (λ e, ∃ p bg, Call p bg ∈ acts ∧ made_by env p bg e) l.
Proof.
  intros Hrun. destruct (footprint_run _ _ _ _ Hrun) as (l & Htr & Hl).
  exists l. split; [done|]. eapply Forall_impl; [exact Hl|].
  intros e ([p bg] & Hin & He). exists p, bg. split; [|done].
  rewrite (callers_run _ _ _ _ Hrun) in Hin. simpl in Hin.
  by apply calls_of_elem.
Qed.

Lemma effects_made_by_calls_witness :
  ∃ sys l,
    run Scenario.env Sample.busy Scenario.boot = Some sys ∧
    trace (shared sys) = l ∧
    Forall (λ e, ∃ p bg, Call p bg ∈ Sample.busy ∧ made_by Scenario.env p bg e) l.
Proof.
  destruct (run Scenario.env Sample.busy Scenario.boot) as [sys|] eqn:Hrun;
    [|by vm_compute in Hrun].
  destruct (effects_made_by_calls Scenario.env (constructor "k3x9") Sample.busy sys Hrun)
    as (l & Htr & Hl).
  by exists sys, l.
Defined.

Lemma filter_none {A} (f : A → bool) (l : list A) :
  Forall (λ x, f x = false) l → filter (λ x, f x = true) l = [].
Proof.
  induction 1 as [|x l Hx _ IH]; [done|].
  rewrite filter_cons, decide_False; [done|]. by rewrite Hx.
Qed.

Lemma pending_step_frame env (product : string) (a : Action) (sys sys' : System) :
  step env a sys = Some sys' →
  Forall (λ pb, productId pb.1 ≠ product) (callers sys') →
  pendingPurchases (shared sys') !! product = pendingPurchases (shared sys) !! product ∧
  filter (λ e, concerns product e = true) (trace (shared sys'))
    = filter (λ e, concerns product e = true) (trace (shared sys)).
Proof.
  intros Hstep Hall.
  destruct (footprint_step _ _ _ _ Hstep) as [(l & Htr & Hl) Hpend].
  rewrite Forall_forall in Hall. split.
  - destruct Hpend as [->|(pb & st & Hin & _ & ->)]; [done|].
    rewrite lookup_insert_ne; [done|]. by apply Hall.
  - rewrite Htr, filter_app.
    rewrite (filter_none (λ e, concerns product e) l); [by rewrite app_nil_r|].
    eapply Forall_impl; [exact Hl|]. intros e (pb & Hin & He).
    specialize (Hall pb Hin). destruct pb as [p bg].
    destruct e; simpl in *; try done.
    + destruct He as [-> _]. by rewrite bool_decide_eq_false_2.
    + subst. by rewrite bool_decide_eq_false_2.
    + destruct He as [-> _]. by rewrite bool_decide_eq_false_2.
Qed.

(** X6.  Frame.  A run that starts with no call in flight and contains
    no call for [product] leaves that product alone: its status and the
    outgoing calls that concern it are the same at the end as at the
    start. *)
Theorem other_products_untouched
    (env : Collaborators) (product : string) (s : State)
    (acts : list Action) (sys : System) :
  (∀ p bg, Call p bg ∈ acts → productId p ≠ product) →
  run env acts (mkSystem s []) = Some sys →
  getStatus product (shared sys) = getStatus product s ∧
  filter (λ e, concerns product e = true) (trace (shared sys))
    = filter (λ e, concerns product e = true) (trace s).
Proof.
  intros Hcalls Hrun.
  assert (∀ acts (sys0 sys' : System),
            run env acts sys0 = Some sys' →
            Forall (λ pb, productId pb.1 ≠ product) (callers sys') →
            pendingPurchases (shared sys') !! product
              = pendingPurchases (shared sys0) !! product ∧
            filter (λ e, concerns product e = true) (trace (shared sys'))
              = filter (λ e, concerns product e = true) (trace (shared sys0))) as Hgen.
  { clear. induction acts as [|a acts IH]; intros sys0 sys' Hrun Hall; simpl in Hrun.
    - by simplify_eq.
    - destruct (step env a sys0) as [sys1|] eqn:Hstep; [|discriminate]. simpl in Hrun.
      destruct (IH _ _ Hrun Hall) as [-> ->].
      apply (pending_step_frame env product a sys0 sys1 Hstep).
      rewrite (callers_run _ _ _ _ Hrun) in Hall. by apply Forall_app in Hall as [? _]. }
  destruct (Hgen acts _ _ Hrun) as [Hpend Htr].
  - rewrite (callers_run _ _ _ _ Hrun). simpl. apply Forall_forall.
    intros [p bg] Hin. apply calls_of_elem in Hin. simpl. by eapply Hcalls.
  - split; [|done]. unfold getStatus. by rewrite Hpend.
Qed.

Lemma other_products_untouched_witness :
  ∃ sys,
    run Scenario.env Sample.busy Scenario.boot = Some sys ∧
    getStatus "gems" (shared sys) = Idle.
Proof.
  destruct (run Scenario.env Sample.busy Scenario.boot) as [sys|] eqn:Hrun;
    [|by vm_compute in Hrun].
  exists sys. split; [reflexivity|].
  destruct (other_products_untouched Scenario.env "gems" (constructor "k3x9")
              Sample.busy sys) as [Hst _]; [|exact Hrun|by rewrite Hst].
  intros p bg Hin.
  repeat (apply elem_of_cons in Hin as [Hin|Hin]; [by simplify_eq|]).
  by apply elem_of_nil in Hin.
Defined.

(** X7.  The processor never writes Idle: under any interleaving, a
    product whose status is not Idle never has status Idle again. *)
Theorem status_never_back_to_idle
    (env : Collaborators) (product : string) (acts : list Action) (sys sys' : System) :
  getStatus product (shared sys) ≠ Idle →
  run env acts sys = Some sys' →
  getStatus product (shared sys') ≠ Idle.
Proof.
  revert sys. induction acts as [|a acts IH]; intros sys Hst Hrun; simpl in Hrun.
  - by simplify_eq.
  - destruct (step env a sys) as [sys1|] eqn:Hstep; [|discriminate]. simpl in Hrun.
    apply (IH sys1); [|done].
    destruct (footprint_step _ _ _ _ Hstep) as [_ Hpend].
    unfold getStatus in *.
    destruct Hpend as [->|(pb & st & _ & Hne & ->)]; [done|].
    destruct (decide (productId pb.1 = product)) as [->|Hneq].
    + by rewrite lookup_insert_eq.
    + by rewrite lookup_insert_ne.
Qed.

Lemma status_never_back_to_idle_witness :
  ∃ sys,
    run Scenario.env (drop 1 Sample.busy)
      (mkSystem Scenario.validating [mkTask Scenario.tx42 true AwaitValidate]) = Some sys ∧
    getStatus "p1" (shared sys) ≠ Idle.
Proof.
  destruct (run Scenario.env (drop 1 Sample.busy)
      (mkSystem Scenario.validating [mkTask Scenario.tx42 true AwaitValidate]))
    as [sys|] eqn:Hrun; [|by vm_compute in Hrun].
  exists sys. split; [reflexivity|].
  apply (status_never_back_to_idle Scenario.env "p1" (drop 1 Sample.busy)
           (mkSystem Scenario.validating [mkTask Scenario.tx42 true AwaitValidate]) sys);
    [by vm_compute | exact Hrun].
Defined.

(** ** Validation before finalization *)

Lemma count_effects_emit (f : Effect → bool) (e : Effect) (s : State) :
  count_effects f (emit e s) = (count_effects f s + (if f e then 1 else 0))%nat.
Proof.
  unfold count_effects. simpl. rewrite filter_app, length_app. f_equal.
  rewrite filter_cons. destruct (f e); by destruct (decide _).
Qed.

Lemma count_effects_update (f : Effect → bool) product st (s : State) :
  count_effects f (update product st s)
    = (count_effects f s + (if f (PendingUpdate product st) then 1 else 0))%nat.
Proof. unfold update. by rewrite count_effects_emit. Qed.

Ltac balance :=
  unfold finishTransaction;
  rewrite ?count_effects_emit, ?count_effects_update;
  unfold count_effects, in_validation; simpl;
  repeat case_decide; repeat case_match; try lia; try (exfalso; intuition congruence).

Lemma balance_processPurchase env (sel : Purchase → bool) p bg (s s' : State) c' :
  processPurchase env p bg s = (s', c') →
  count_effects (finishes sel) s' = count_effects (finishes sel) s ∧
  count_effects (validates sel) s'
    = (count_effects (validates sel) s
       + (if decide (in_validation sel (mkTask p bg c')) then 1 else 0))%nat.
Proof.
  unfold processPurchase. destruct (stale s); [intros; simplify_eq; split; balance|].
  simpl. destruct (decide _); intros; simplify_eq; split; balance.
Qed.

Lemma balance_resume env (sel : Purchase → bool) p bg c w (s s' : State) c' :
  resume env p bg c w s = Some (s', c') →
  count_effects (validates sel) s' = count_effects (validates sel) s ∧
  (count_effects (finishes sel) s'
   + (if decide (in_validation sel (mkTask p bg c')) then 1 else 0)
   ≤ count_effects (finishes sel) s
     + (if decide (in_validation sel (mkTask p bg c)) then 1 else 0))%nat.
Proof.
  intros H. unfold resume, completed, catch_error, reportError in H.
  destruct c, w as [|[v|e]|[u|e]]; simpl in H; try discriminate.
  - destruct (decide _); simplify_eq; split; balance.
  - destruct v; simpl in H.
    + destruct (getType env (productId p)); simplify_eq; simpl; split; balance.
    + simplify_eq. split; balance.
  - destruct bg; simplify_eq; split; balance.
  - simplify_eq. split; balance.
  - simplify_eq. split; balance.
  - simplify_eq. simpl. split; balance.
  - simplify_eq. simpl. split; balance.
Qed.

Lemma balance_step env (sel : Purchase → bool) (a : Action) (sys sys' : System) :
  step env a sys = Some sys' →
  (count_effects (finishes sel) (shared sys')
   + length (filter (in_validation sel) (tasks sys'))
   + count_effects (validates sel) (shared sys)
   ≤ count_effects (finishes sel) (shared sys)
     + length (filter (in_validation sel) (tasks sys))
     + count_effects (validates sel) (shared sys'))%nat.
Proof.
  destruct a as [p bg|i w|tk|other]; simpl; intros H.
  - destruct (processPurchase env p bg (shared sys)) as [s c] eqn:Hp.
    simplify_eq. simpl.
    destruct (balance_processPurchase env sel _ _ _ _ _ Hp) as [-> ->].
    rewrite filter_app, length_app, filter_cons.
    destruct (decide _); simpl; lia.
  - destruct (tasks sys !! i) as [k|] eqn:Hk; [|discriminate]. simpl in H.
    destruct (resume env (purchase k) (inBackground k) (pc k) w (shared sys))
      as [[s c]|] eqn:Hr; [|discriminate].
    simpl in H. simplify_eq. simpl.
    destruct (balance_resume env sel _ _ _ _ _ _ _ Hr) as [-> Hb].
    pose proof (count_insert (in_validation sel) (tasks sys) i k
                  (mkTask (purchase k) (inBackground k) c) Hk) as Hc.
    replace (mkTask (purchase k) (inBackground k) (pc k)) with k in Hb by by destruct k.
    lia.
  - simplify_eq. simpl. unfold count_effects. simpl. rewrite trace_run_timers. lia.
  - simplify_eq. simpl. unfold count_effects. simpl. lia.
Qed.

Lemma balance_run env (sel : Purchase → bool) (acts : list Action) : ∀ (sys sys' : System),
  run env acts sys = Some sys' →
  (count_effects (finishes sel) (shared sys')
   + length (filter (in_validation sel) (tasks sys'))
   + count_effects (validates sel) (shared sys)
   ≤ count_effects (finishes sel) (shared sys)
     + length (filter (in_validation sel) (tasks sys))
     + count_effects (validates sel) (shared sys'))%nat.
Proof.
  induction acts as [|a acts IH]; intros sys sys' H; simpl in H.
  - simplify_eq. lia.
  - destruct (step env a sys) as [sys1|] eqn:Hs; [|discriminate]. simpl in H.
    apply IH in H. apply (balance_step env sel) in Hs. lia.
Qed.

(** X8.  Nothing is finalized that was not validated first.  For any
    selection of purchases (one purchase, one product, one transaction),
    in any run that starts with no call in flight, the finalizer is called
    for the selection at most as often as the validation service. *)
Theorem finalized_only_after_validation
    (env : Collaborators) (sel : Purchase → bool) (s : State)
    (acts : list Action) (sys : System) :
  run env acts (mkSystem s []) = Some sys →
  (count_effects (finishes sel) (shared sys) + count_effects (validates sel) s
   ≤ count_effects (finishes sel) s + count_effects (validates sel) (shared sys))%nat.
Proof.
  intros Hrun. apply (balance_run env sel) in Hrun. simpl in Hrun. lia.
Qed.

Lemma finalized_only_after_validation_witness :
  ∃ sys,
    run Scenario.env Sample.busy Scenario.boot = Some sys ∧
    (count_effects (finishes (λ p, bool_decide (productId p = "p1"))) (shared sys) + 0
     ≤ 0 + count_effects (validates (λ p, bool_decide (productId p = "p1"))) (shared sys))%nat.
Proof.
  destruct (run Scenario.env Sample.busy Scenario.boot) as [sys|] eqn:Hrun;
    [|by vm_compute in Hrun].
  exists sys. split; [reflexivity|].
  exact (finalized_only_after_validation Scenario.env
           (λ p, bool_decide (productId p = "p1")) (constructor "k3x9")
           Sample.busy sys Hrun).
Defined.

Lemma validations_step env (sel : Purchase → bool) (a : Action) (sys sys' : System) :
  step env a sys = Some sys' →
  (count_effects (validates sel) (shared sys')
   ≤ count_effects (validates sel) (shared sys) + selected_calls sel [a])%nat.
Proof.
  unfold selected_calls, calls_of.
  destruct a as [p bg|i w|tk|other]; simpl; intros H.
  - destruct (processPurchase env p bg (shared sys)) as [s c] eqn:Hp.
    simplify_eq. simpl.
    destruct (balance_processPurchase env sel _ _ _ _ _ Hp) as [_ ->].
    rewrite filter_cons. unfold in_validation. simpl.
    repeat case_decide; simpl; try lia. exfalso. intuition congruence.
  - destruct (tasks sys !! i) as [k|] eqn:Hk; [|discriminate]. simpl in H.
    destruct (resume env (purchase k) (inBackground k) (pc k) w (shared sys))
      as [[s c]|] eqn:Hr; [|discriminate].
    simpl in H. simplify_eq. simpl.
    destruct (balance_resume env sel _ _ _ _ _ _ _ Hr) as [-> _]. lia.
  - simplify_eq. simpl. unfold count_effects. simpl. rewrite trace_run_timers. lia.
  - simplify_eq. simpl. unfold count_effects. simpl. lia.
Qed.

(** X16.  One validation per call, at most.  For any selection of
    purchases, under any interleaving, the validation service is called
    for the selection at most once per call of [processPurchase] with a
    selected event; settlements, timer firings, clock advances and hot
    reloads never start a validation. *)
Theorem validated_at_most_once_per_call
    (env : Collaborators) (sel : Purchase → bool)
    (acts : list Action) (sys sys' : System) :
  run env acts sys = Some sys' →
  (count_effects (validates sel) (shared sys')
   ≤ count_effects (validates sel) (shared sys) + selected_calls sel acts)%nat.
Proof.
  revert sys. induction acts as [|a acts IH]; intros sys Hrun; simpl in Hrun.
  - simplify_eq. lia.
  - destruct (step env a sys) as [sys1|] eqn:Hstep; [|discriminate]. simpl in Hrun.
    apply IH in Hrun. apply (validations_step env sel) in Hstep.
    assert (selected_calls sel (a :: acts)
            = (selected_calls sel [a] + selected_calls sel acts)%nat) as ->.
    { unfold selected_calls, calls_of.
      change (a :: acts) with ([a] ++ acts).
      by rewrite omap_app, filter_app, length_app. }
    lia.
Qed.

Lemma validated_at_most_once_per_call_witness :
  ∃ sys,
    run Scenario.env Scenario.stuck Scenario.boot = Some sys ∧
    (count_effects (validates (λ p, bool_decide (productId p = "p1"))) (shared sys)
     ≤ 0 + 2)%nat.
Proof.
  destruct (run Scenario.env Scenario.stuck Scenario.boot) as [sys|] eqn:Hrun;
    [|by vm_compute in Hrun].
  exists sys. split; [reflexivity|].
  exact (validated_at_most_once_per_call Scenario.env
           (λ p, bool_decide (productId p = "p1")) Scenario.stuck Scenario.boot sys Hrun).
Defined.

(** X17.  Only the wait loop can keep a call suspended for ever.  Every
    wake-up of a call that is past the wait loop brings it strictly closer
    to its end: a call at the validation service is over after at most two
    settlements, a call at the finalizer after one, and a call never goes
    back to the wait loop or to the validation service. *)
Theorem settlements_are_bounded
    (env : Collaborators) (p : Purchase) (bg : bool) (c c' : Pc) (w : Wake)
    (s s' : State) :
  c ≠ AwaitTimer →
  resume env p bg c w s = Some (s', c') →
  (settlements_left c' < settlements_left c)%nat.
Proof.
  intros Hc H. unfold resume, completed, catch_error, reportError in H.
  destruct c, w as [|[v|e]|[u|e]]; simpl in H; try discriminate; try done.
  - destruct v; simpl in H; [|simplify_eq; simpl; lia].
    destruct (getType env (productId p)); simplify_eq; simpl; lia.
  - destruct bg; simplify_eq; simpl; lia.
  - simplify_eq. simpl. lia.
  - simplify_eq. simpl. lia.
  - simplify_eq. simpl. lia.
  - simplify_eq. simpl. lia.
Qed.

Lemma settlements_are_bounded_witness :
  (settlements_left AwaitFinishVerified < settlements_left AwaitValidate)%nat.
Proof.
  destruct (resume Scenario.env Scenario.sub1 true AwaitValidate
              (ValidateSettled (Resolved true)) Scenario.validating)
    as [[s' c']|] eqn:Hr; [|by vm_compute in Hr].
  pose proof (settlements_are_bounded Scenario.env Scenario.sub1 true AwaitValidate c'
                (ValidateSettled (Resolved true)) Scenario.validating s'
                ltac:(discriminate) Hr) as Hlt.
  assert (c' = AwaitFinishVerified) as <- by (vm_compute in Hr; by injection Hr as _ <-).
  exact Hlt.
Defined.

(** ** A product blocked by a failed validation *)





(** ** Liveness is read once *)

(** X10.  The liveness token is read at the entry of [processPurchase]
    only.  A call that is suspended at the validation service when another
    processor instance takes the token over is not stopped: when its
    validation resolves unverified it still sets the status, calls the
    finalizer and completes, although the processor is stale by then and
    discards every new event. *)
Theorem suspended_call_survives_hot_reload
    (env : Collaborators) (p q : Purchase) (bg bg' : bool) (s : State)
    (other : string) (r : Settled unit) :
  active_iap_events_processor s = Some (id s) →
  getStatus (productId p) s ≠ Validating →
  other ≠ id s →
  ∃ sys,
    run env [Call p bg; HotReload other;
             Settle 0 (ValidateSettled (Resolved false));
             Settle 0 (FinishSettled r)] (mkSystem s []) = Some sys ∧
    tasks sys = [mkTask p bg (Done (Returned None))] ∧
    trace (shared sys) = trace s ++
      [PendingUpdate (productId p) Validating; Validate p;
       PendingUpdate (productId p) Finishing;
       FinishTransaction p (bool_decide (getType env (productId p) = Consumable));
       PendingUpdate (productId p) Completed] ∧
    getStatus (productId p) (shared sys) = Completed ∧
    processPurchase env q bg' (shared sys) = (shared sys, Done (Returned None)).
Proof.
  intros Hlive Hst Hother. simpl.
  rewrite (processPurchase_validates env p bg s Hlive Hst). simpl.
  destruct r as [[]|e]; simpl; eexists; (split; [reflexivity|]);
    (split; [reflexivity|]); simpl; rewrite <- !app_assoc;
    (split; [reflexivity|]);
    (split; [apply (getStatus_update (productId p) Completed)|]);
    unfold processPurchase;
    rewrite stale_true; try reflexivity; simpl; congruence.
Qed.

Lemma suspended_call_survives_hot_reload_witness :
  ∃ sys,
    run Scenario.env
      [Call Scenario.sub1 true; HotReload "m2q7";
       Settle 0 (ValidateSettled (Resolved false));
       Settle 0 (FinishSettled (Resolved ()))] Scenario.boot = Some sys ∧
    getStatus "sub1" (shared sys) = Completed.
Proof.
  destruct (suspended_call_survives_hot_reload Scenario.env Scenario.sub1 Scenario.coins
              true true (constructor "k3x9") "m2q7" (Resolved ()))
    as (sys & Hrun & _ & _ & Hst & _); [reflexivity | by vm_compute | by vm_compute |].
  exists sys. split; [exact Hrun | exact Hst].
Defined.

(** ** Error routing *)

Lemma resume_thrown env p bg c w (s s' : State) (e : IapticError) :
  resume env p bg c w s = Some (s', Done (Thrown e)) →
  bg = false ∧ ∃ err, e = toIapticError env err WARNING.
Proof.
  intros H. unfold resume, completed, catch_error, reportError in H.
  destruct c, w as [|[v|err]|[u|err]]; simpl in H; try discriminate.
  - by destruct (decide _).
  - destruct v; simpl in H; [|discriminate].
    by destruct (getType env (productId p)).
  - destruct bg; simplify_eq. eauto.
Qed.

Lemma throws_step env (a : Action) (sys sys' : System) :
  Forall (throws_in_foreground env) (tasks sys) →
  step env a sys = Some sys' →
  Forall (throws_in_foreground env) (tasks sys').
Proof.
  intros Hall Hstep. destruct a as [q bg|i w|t|other]; simpl in *.
  - destruct (processPurchase env q bg (shared sys)) as [s c] eqn:Hp.
    simplify_eq. simpl. apply Forall_app. split; [done|].
    constructor; [|done]. intros e Hpc. simpl in Hpc. subst c.
    unfold processPurchase in Hp. destruct (stale _); [by simplify_eq|].
    simpl in Hp. by destruct (decide _).
  - destruct (tasks sys !! i) as [k|] eqn:Hk; [|discriminate]. simpl in Hstep.
    destruct (resume _ _ _ _ _ _) as [[s c]|] eqn:Hr; [|discriminate].
    simpl in Hstep. simplify_eq. simpl.
    apply Forall_insert; [done|]. intros e Hpc. simpl in *. subst c.
    by apply resume_thrown in Hr.
  - by simplify_eq.
  - by simplify_eq.
Qed.

(** X11.  Only foreground calls throw.  In any run that starts with no
    call in flight, a call that ended by throwing was made in the
    foreground, and what it threw is an error classified as WARNING; a
    background call never throws. *)
Theorem only_foreground_calls_throw
    (env : Collaborators) (s : State) (acts : list Action) (sys : System) :
  run env acts (mkSystem s []) = Some sys →
  ∀ k e, k ∈ tasks sys → pc k = Done (Thrown e) →
         inBackground k = false ∧ ∃ err, e = toIapticError env err WARNING.
Proof.
  intros Hrun.
  assert (Forall (throws_in_foreground env) (tasks sys)) as Hall.
  { assert (Forall (throws_in_foreground env) (tasks (mkSystem s []))) as H0 by done.
    revert Hrun H0. generalize (mkSystem s []). clear s.
    induction acts as [|a acts IH]; intros sys0 Hrun H0; simpl in Hrun.
    - by simplify_eq.
    - destruct (step env a sys0) as [sys1|] eqn:Hstep; [|discriminate].
      simpl in Hrun. apply (IH sys1 Hrun). by eapply throws_step. }
  intros k e Hin Hpc. rewrite Forall_forall in Hall. by apply (Hall k Hin).
Qed.

Lemma only_foreground_calls_throw_witness :
  ∃ sys k,
    run Scenario.env Sample.busy Scenario.boot = Some sys ∧
    tasks sys !! 1%nat = Some k ∧
    pc k = Done (Thrown (mkIapticError WARNING "Error" "Network request failed")) ∧
    inBackground k = false.
Proof.
  destruct (run Scenario.env Sample.busy Scenario.boot) as [sys|] eqn:Hrun;
    [|by vm_compute in Hrun].
  pose proof (only_foreground_calls_throw Scenario.env (constructor "k3x9")
                Sample.busy sys Hrun) as Hthrow.
  assert (tasks sys !! 1%nat
          = Some (mkTask Scenario.coins false
                   (Done (Thrown (mkIapticError WARNING "Error" "Network request failed")))))
    as Hk by (vm_compute in Hrun; by injection Hrun as <-).
  eexists sys, _. split; [reflexivity|]. split; [exact Hk|]. split; [reflexivity|].
  by destruct (Hthrow _ _ (list_elem_of_lookup_2 _ _ _ Hk) eq_refl) as [? _].
Defined.

(** ** Cache identities *)

Lemma live_processPurchase env p bg (s : State) :
  active_iap_events_processor s = Some (id s) →
  active_iap_events_processor (processPurchase env p bg s).1
    = Some (id (processPurchase env p bg s).1).
Proof.
  intros Hlive. unfold processPurchase. rewrite (stale_false _ Hlive). simpl.
  by destruct (decide _).
Qed.

(** X12.  The cache keeps one entry per identity, last write wins, and
    transaction identifiers and product identifiers share one key space.
    Two events have the same identity when their transaction identifiers
    are equal, when neither has one and their products are equal, or when
    the transaction identifier of one is the product identifier of the
    other, which has none.  When two live calls process events of the same
    identity, the cache holds the event of the second call. *)
Theorem cache_last_write_wins
    (env : Collaborators) (p q : Purchase) (bg bg' : bool) (s : State) :
  active_iap_events_processor s = Some (id s) →
  (identity p = identity q ↔
   match transactionId p, transactionId q with
   | Some a, Some b => a = b
   | Some a, None => a = productId q
   | None, Some b => productId p = b
   | None, None => productId p = productId q
   end) ∧
  (identity p = identity q →
   get (identity p) (processPurchase env q bg' (processPurchase env p bg s).1).1 = Some q).
Proof.
  intros Hlive. split.
  - unfold identity. by destruct (transactionId p), (transactionId q).
  - intros ->. apply processPurchase_caches. by apply live_processPurchase.
Qed.

Lemma cache_last_write_wins_witness :
  get "coins"
    (processPurchase Scenario.env Scenario.coins false
       (processPurchase Scenario.env (mkPurchase "p1" (Some "coins") "receipt-x") true
          (constructor "k3x9")).1).1
    = Some Scenario.coins.
Proof.
  destruct (cache_last_write_wins Scenario.env
              (mkPurchase "p1" (Some "coins") "receipt-x") Scenario.coins true false
              (constructor "k3x9")) as [_ Hget]; [reflexivity|].
  by apply Hget.
Defined.

(** ** Application service *)

(** X13.  What [showError] shows.  Every error is written to the console
    once, first.  At most one notification follows: none exactly when the
    error is an [IapticError] of severity INFO, one otherwise. *)
Theorem showError_notifies_once (dev : AppService.Device) (error : AppService.AppError) :
  (∃ line rest,
     AppService.showError dev error = AppService.ConsoleLog line :: rest ∧
     filter (λ u, AppService.is_console u = true) rest = [] ∧
     filter (λ u, AppService.visible u = true) rest = rest) ∧
  (length (filter (λ u, AppService.visible u = true) (AppService.showError dev error)) ≤ 1)%nat ∧
  (filter (λ u, AppService.visible u = true) (AppService.showError dev error) = [] ↔
   ∃ e, error = AppService.Classified e ∧ severity e = INFO).
Proof.
  destruct error as [e|e]; unfold AppService.showError, AppService.log.
  - destruct (severity e) eqn:Hsev; simpl.
    + split; [by eexists _, _|]. split; [lia|]. split; [eauto|done].
    + destruct (bool_decide (AppService.OS dev = "android")); simpl;
        (split; [by eexists _, _|]); (split; [lia|]);
        (split; [done|]); intros (e' & He & Hs); simplify_eq; congruence.
    + split; [by eexists _, _|]. split; [simpl; lia|].
      split; [done|]. intros (e' & He & Hs); simplify_eq; congruence.
  - simpl. split; [by eexists _, _|]. split; [lia|].
    split; [done|]. by intros (e' & He & _).
Qed.

(** X14.  Toast or alert.  [showError] shows a toast exactly for an
    [IapticError] of severity WARNING on Android, with the localized
    message; every other error that is shown is shown as an alert: an
    [IapticError] with its localized title and message, any other error
    under the title "Error" with its own message. *)
Theorem showError_toast_or_alert
    (dev : AppService.Device) (error : AppService.AppError) :
  (∀ m, AppService.ToastShort m ∈ AppService.showError dev error ↔
        ∃ e, error = AppService.Classified e ∧ severity e = WARNING ∧
             AppService.OS dev = "android" ∧ m = AppService.localizedMessage dev e) ∧
  (∀ title m, AppService.Alert title m ∈ AppService.showError dev error ↔
     (∃ e, error = AppService.Plain e ∧ title = "Error" ∧ m = Some (err_message e)) ∨
     (∃ e, error = AppService.Classified e ∧
           (severity e = ERROR ∨ (severity e = WARNING ∧ AppService.OS dev ≠ "android")) ∧
           title = AppService.localizedTitle dev e ∧
           m = Some (AppService.localizedMessage dev e))).
Proof.
  destruct error as [e|e]; unfold AppService.showError, AppService.log.
  - destruct (severity e) eqn:Hsev; simpl.
    + split; [intros m|intros title m]; rewrite list_elem_of_singleton; split;
        try done; intros H; destruct_or?; destruct H as (e' & He & H);
        simplify_eq; destruct_and?; destruct_or?; destruct_and?; congruence.
    + case_bool_decide as Hos; simpl.
      * split; [intros m|intros title m]; rewrite !elem_of_cons, elem_of_nil; split.
        -- intros [?|[?|[]]]; simplify_eq. by exists e.
        -- intros (e' & ? & _ & _ & ->). simplify_eq. auto.
        -- intros [?|[?|[]]]; simplify_eq.
        -- intros [(e' & ? & _)|(e' & ? & [?|[_ ?]] & _)]; simplify_eq; congruence.
      * split; [intros m|intros title m]; rewrite !elem_of_cons, elem_of_nil; split.
        -- intros [?|[?|[]]]; simplify_eq.
        -- intros (e' & ? & _ & ? & _). simplify_eq.
        -- intros [?|[?|[]]]; simplify_eq. right. exists e. auto.
        -- intros [(e' & ? & _)|(e' & ? & _ & -> & ->)]; simplify_eq. auto.
    + split; [intros m|intros title m]; rewrite !elem_of_cons, elem_of_nil; split.
      * intros [?|[?|[]]]; simplify_eq.
      * intros (e' & ? & ? & _). simplify_eq. congruence.
      * intros [?|[?|[]]]; simplify_eq. right. exists e. auto.
      * intros [(e' & ? & _)|(e' & ? & _ & -> & ->)]; simplify_eq. auto.
  - simpl. split; [intros m|intros title m]; rewrite !elem_of_cons, elem_of_nil; split.
    + intros [?|[?|[]]]; simplify_eq.
    + intros (e' & ? & _). simplify_eq.
    + intros [?|[?|[]]]; simplify_eq. left. by exists e.
    + intros [(e' & ? & -> & ->)|(e' & ? & _)]; simplify_eq. auto.
Qed.

Lemma visible_progress (progress : list (nat * nat)) :
  filter (λ u, AppService.visible u = true)
    ((λ r, AppService.RestoreProgress r.1 r.2) <$> progress) = [].
Proof.
  apply (filter_none AppService.visible).
  apply Forall_fmap, Forall_forall. by intros [a b] _.
Qed.

(** X15.  Feedback of the user actions.  [restorePurchases] forwards every
    progress report to the application state, in order, and then shows one
    alert with the number of restored purchases when the restore succeeds;
    when it fails, and when an order placed by [handleSubscribeButton]
    fails, the user sees what [showError] shows for the failure, so a
    failure of severity INFO is shown nowhere but on the console.  A
    successful order shows nothing. *)
Theorem user_actions_feedback
    (dev : AppService.Device) (progress : list (nat * nat))
    (result : AppService.AppError + nat) (order : option AppService.AppError) :
  omap (λ u, match u with
             | AppService.RestoreProgress a b => Some (a, b)
             | _ => None
             end) (AppService.restorePurchases dev progress result) = progress ∧
  filter (λ u, AppService.visible u = true) (AppService.restorePurchases dev progress result)
    = match result with
      | inr n => [AppService.Alert (pretty n +:+ " purchases restored.") None]
      | inl err => filter (λ u, AppService.visible u = true) (AppService.showError dev err)
      end ∧
  filter (λ u, AppService.visible u = true) (AppService.handleSubscribeButton dev order)
    = match order with
      | None => []
      | Some err => filter (λ u, AppService.visible u = true) (AppService.showError dev err)
      end.
Proof.
  split; [|split].
  - unfold AppService.restorePurchases. rewrite omap_app.
    assert (omap (λ u, match u with
                       | AppService.RestoreProgress a b => Some (a, b)
                       | _ => None
                       end)
              ((λ r, AppService.RestoreProgress r.1 r.2) <$> progress) = progress) as ->.
    { induction progress as [|[a b] l IH]; [done|]. simpl. f_equal. exact IH. }
    destruct result as [[e|e]|n]; simpl; [|by rewrite app_nil_r..].
    unfold AppService.showError, AppService.log.
    destruct (severity e); simpl; [by rewrite app_nil_r| |by rewrite app_nil_r].
    destruct (bool_decide _); simpl; by rewrite app_nil_r.
  - unfold AppService.restorePurchases. rewrite filter_app, visible_progress.
    by destruct result.
  - by destruct order.
Qed.
